(** * POTA park logbook: a shallow embedding of [POTA.py]

    The program keeps a catalog of parks (a Python list of dicts), imports it
    from a CSV export, filters it by province and records activation dates.
    The Qt widgets are left out; what the handlers do to the catalog, the
    configuration, the two JSON files and the message boxes is modelled as
    explicit state passing with Python's exceptions.  Of the table, the
    rows of the model are kept, and the reads of the sort keys that the
    proxy makes when the model is reset; of the signals, the one that
    [setCurrentIndex] sends to [filter_parks]. *)

From Stdlib Require Import ZArith Ascii String.
From stdpp Require Import gmap strings list fin_maps.

Set Warnings "-register-all,-notation-for-abbreviation,-clear-no-such-hyp".

Local Open Scope Z_scope.

(* ===================================================================== *)
(** * Python values and exceptions *)
(* ===================================================================== *)

(** The exceptions the modelled code can raise.  [QtFatal e] is not one of
    Python's: it is the end of the process.  When Python code that Qt calls
    (a slot run by a signal, a reimplemented virtual such as
    [ParkTableModel.data]) raises [e], PyQt6 prints [e] and calls [qFatal];
    nothing runs after that and no caller gets to see [e]. *)
Inductive exn :=
| KeyError (key : string)
| TypeError
| AttributeError
| ValueError
| JSONDecodeError
| OSError
| QtFatal (e : exn).

Inductive result (A : Type) :=
| Ok (a : A)
| Raise (e : exn).
Arguments Ok {A} a.
Arguments Raise {A} e.

Definition rbind {A B} (r : result A) (k : A -> result B) : result B :=
  match r with
  | Ok a => k a
  | Raise e => Raise e
  end.

Notation "'try' x <- r ; k" := (rbind r (fun x => k))
  (at level 10, x name, r at level 100, k at level 200).

(** What [json.load] can produce (floats apart): [None], booleans,
    integers, strings, lists, and dicts with string keys.  A text is a
    sequence of code points below 256. *)
Inductive value :=
| VNone
| VBool (b : bool)
| VInt (z : Z)
| VStr (s : string)
| VList (l : list value)
| VDict (d : gmap string value).

(** [v[k]] for a string key [k]. *)
Definition py_getitem (v : value) (k : string) : result value :=
  match v with
  | VDict d => match d !! k with
               | Some x => Ok x
               | None => Raise (KeyError k)
               end
  | _ => Raise TypeError
  end.

(** [v[k] = x] for a string key [k]. *)
Definition py_setitem (v : value) (k : string) (x : value) : result value :=
  match v with
  | VDict d => Ok (VDict (<[k := x]> d))
  | _ => Raise TypeError
  end.

(** [v.get(k, dflt)]. *)
Definition py_get (v : value) (k : string) (dflt : value) : result value :=
  match v with
  | VDict d => Ok (default dflt (d !! k))
  | _ => Raise AttributeError
  end.

(** [bool(v)]. *)
Definition truthy (v : value) : bool :=
  match v with
  | VNone => false
  | VBool b => b
  | VInt z => negb (z =? 0)
  | VStr s => negb (String.eqb s "")
  | VList l => match l with [] => false | _ => true end
  | VDict d => negb (bool_decide (d = ∅))
  end.

(** [v == s] for a string [s]: only a string equals a string. *)
Definition py_eq_str (v : value) (s : string) : bool :=
  match v with
  | VStr t => String.eqb t s
  | _ => false
  end.

(** [c in s] on two strings: [c] occurs in [s] as a substring. *)
Fixpoint substring_of (c s : string) : bool :=
  String.prefix c s ||
  match s with
  | EmptyString => false
  | String _ s' => substring_of c s'
  end.

(** [c in v] for a string [c]. *)
Definition py_contains (c : string) (v : value) : result bool :=
  match v with
  | VList l => Ok (existsb (fun x => py_eq_str x c) l)
  | VStr s => Ok (substring_of c s)
  | VDict d => Ok (bool_decide (is_Some (d !! c)))
  | _ => Raise TypeError
  end.

(* ===================================================================== *)
(** * String operations of the Python library *)
(* ===================================================================== *)

Definition code_point (c : ascii) : N := N_of_ascii c.

(** [str.isspace] on one character below 256: tab to carriage return, the
    four separators 0x1c-0x1f, the space, NEL and the no-break space. *)
Definition is_space (c : ascii) : bool :=
  let n := code_point c in
  ((9 <=? n) && (n <=? 13) || (28 <=? n) && (n <=? 32) ||
   (n =? 133) || (n =? 160))%N.

Definition is_digit (c : ascii) : bool :=
  let n := code_point c in ((48 <=? n) && (n <=? 57))%N.

Definition digit_value (c : ascii) : Z := Z.of_N (code_point c) - 48.

Fixpoint lstrip (s : string) : string :=
  match s with
  | EmptyString => EmptyString
  | String c s' => if is_space c then lstrip s' else s
  end.

Fixpoint rstrip (s : string) : string :=
  match s with
  | EmptyString => EmptyString
  | String c s' =>
      match rstrip s' with
      | EmptyString => if is_space c then EmptyString else String c EmptyString
      | t => String c t
      end
  end.

(** [s.strip()]. *)
Definition strip (s : string) : string := rstrip (lstrip s).

(** [s.split(sep)] for a one-character separator: never an empty list. *)
Fixpoint split (sep : ascii) (s : string) : list string :=
  match s with
  | EmptyString => [EmptyString]
  | String c s' =>
      if Ascii.eqb c sep then EmptyString :: split sep s'
      else match split sep s' with
           | t :: ts => String c t :: ts
           | [] => [String c EmptyString]
           end
  end.

(** [int(s)] in base ten: surrounding whitespace, one optional sign, then
    digits, with single underscores allowed between two digits. *)
Inductive int_state := AtStart | AfterDigit | AfterUnderscore.

Fixpoint int_digits (st : int_state) (acc : Z) (s : string) : option Z :=
  match s with
  | EmptyString => match st with AfterDigit => Some acc | _ => None end
  | String c s' =>
      if is_digit c then int_digits AfterDigit (10 * acc + digit_value c) s'
      else if Ascii.eqb c "_" then
        match st with
        | AfterDigit => int_digits AfterUnderscore acc s'
        | _ => None
        end
      else None
  end.

Definition py_int (s : string) : result Z :=
  let body (sign : Z) (t : string) :=
    match int_digits AtStart 0 t with
    | Some n => Ok (sign * n)
    | None => Raise ValueError
    end in
  match strip s with
  | String "+" t => body 1 t
  | String "-" t => body (-1) t
  | t => body 1 t
  end.

(* ===================================================================== *)
(** * Regular expressions: the fragment [re.search] is used with *)
(* ===================================================================== *)

Module Re.

Inductive regex :=
| Lit (c : ascii)             (* one literal character; [\\] is [Lit "\"] *)
| Class (p : ascii -> bool)   (* a character class; [\d] is [Class is_digit] *)
| Seq (r1 r2 : regex)
| Plus (r : regex)            (* greedy [r+] *)
| Group (r : regex).          (* the capturing group, number 1 *)

(** A way to match a prefix of the subject: the text consumed, the text
    left, and what group 1 captured. *)
Record hit := Hit { consumed : string; rest : string; group1 : option string }.

Definition later_group (g1 g2 : option string) : option string :=
  match g2 with Some _ => g2 | None => g1 end.

(** All the ways [r] matches at the start of [s], the one a backtracking
    matcher tries first at the head. *)
Fixpoint matches (r : regex) (s : string) : list hit :=
  match r with
  | Lit c =>
      match s with
      | String c' s' =>
          if Ascii.eqb c c' then [Hit (String c' EmptyString) s' None] else []
      | EmptyString => []
      end
  | Class p =>
      match s with
      | String c' s' => if p c' then [Hit (String c' EmptyString) s' None] else []
      | EmptyString => []
      end
  | Seq r1 r2 =>
      h1 ← matches r1 s;
      h2 ← matches r2 (rest h1);
      [Hit (consumed h1 +:+ consumed h2) (rest h2)
           (later_group (group1 h1) (group1 h2))]
  | Plus r1 =>
      (fix repeat (n : nat) (s : string) : list hit :=
         h1 ← matches r1 s;
         (match n, consumed h1 with
          | S n', String _ _ =>
              h2 ← repeat n' (rest h1);
              [Hit (consumed h1 +:+ consumed h2) (rest h2)
                   (later_group (group1 h1) (group1 h2))]
          | _, _ => []
          end) ++ [h1]) (String.length s) s
  | Group r1 =>
      h ← matches r1 s;
      [Hit (consumed h) (rest h) (Some (consumed h))]
  end.

(** [re.search(r, s)]: the first way to match at the leftmost position
    where there is one; the result is group 1 of that match. *)
Fixpoint search (r : regex) (s : string) : option (option string) :=
  match matches r s with
  | h :: _ => Some (group1 h)
  | [] =>
      match s with
      | EmptyString => None
      | String _ s' => search r s'
      end
  end.

End Re.

(* ===================================================================== *)
(** * The numeric sort key *)
(* ===================================================================== *)

Definition backslash : ascii := Ascii.ascii_of_nat 92.

(** The pattern of the source, [r'-(\\d+)']: in a raw string the two
    backslashes reach [re] as they are, where they stand for one literal
    backslash; the [d+] after them is the letter d, repeated. *)
Definition park_number_pattern : Re.regex :=
  Re.Seq (Re.Lit "-")
         (Re.Group (Re.Seq (Re.Lit backslash) (Re.Plus (Re.Lit "d")))).

(** [int(match.group(1)) if match else 0]; [group(1)] is [None] for a group
    that took no part in the match, and [int(None)] raises [TypeError]. *)
Definition int_of_group1 (m : option (option string)) : result Z :=
  match m with
  | Some (Some g) => py_int g
  | Some None => Raise TypeError
  | None => Ok 0
  end.

Definition get_park_number_int (reference : string) : result Z :=
  int_of_group1 (Re.search park_number_pattern reference).

(** The key as the specification words it: the first run of decimal digits
    that follows a [-], read as an integer; 0 when there is none.  This is
    the pattern [-(\d+)]. *)
Definition digits_after_dash : Re.regex :=
  Re.Seq (Re.Lit "-") (Re.Group (Re.Plus (Re.Class is_digit))).

Definition sort_key_spec (reference : string) : result Z :=
  int_of_group1 (Re.search digits_after_dash reference).

(* ===================================================================== *)
(** * Constants *)
(* ===================================================================== *)

(** The keys of [PROVINCE_MAP], in the order of the source.  The names they
    map to are shown in the selector and nowhere else. *)
Definition PROVINCE_MAP : list string :=
  ["CN-AH"; "CN-BJ"; "CN-CQ"; "CN-FJ";
   "CN-GD"; "CN-GS"; "CN-GX"; "CN-GZ";
   "CN-HA"; "CN-HB"; "CN-HE"; "CN-HI";
   "CN-HK"; "CN-HL"; "CN-HN"; "CN-JL";
   "CN-JS"; "CN-JX"; "CN-LN"; "CN-MO";
   "CN-NM"; "CN-NX"; "CN-QH"; "CN-SC";
   "CN-SD"; "CN-SH"; "CN-SN"; "CN-SX";
   "CN-TJ"; "CN-TW"; "CN-XJ"; "CN-XZ";
   "CN-YN"; "CN-ZJ"].

(** [c in PROVINCE_MAP]. *)
Definition in_province_map (c : string) : bool :=
  bool_decide (c ∈ PROVINCE_MAP).

Definition PARKS_DATA_FILE : string := "parks_data.json".
Definition CONFIG_FILE : string := "config.json".

(* ===================================================================== *)
(** * The application state *)
(* ===================================================================== *)

(** A file on disk, by what [json.load] makes of its text. *)
Inductive document :=
| NotJson
| Json (v : value).

Definition json_load (doc : document) : result value :=
  match doc with
  | Json v => Ok v
  | NotJson => Raise JSONDecodeError
  end.

(** What the user gets to see, and what reaches the disk. *)
Inductive event :=
| Wrote (path : string) (doc : value)              (* [json.dump] *)
| WarnNotFound (park_ref : string)                 (* [QMessageBox.warning] *)
| InfoActivated (park_ref : string) (date : string)
| InfoImported (count : nat).

Record PotaLogbookApp := App {
  all_parks : list value;          (* [self.all_parks] *)
  config : value;                  (* [self.config] *)
  province_combo : option string;  (* [self.province_combo.currentData()] *)
  park_table_model : list value;   (* [self.park_table_model._data] *)
  files : gmap string document;    (* the working directory *)
  events : list event              (* oldest first *)
}.

Definition set_all_parks (l : list value) (st : PotaLogbookApp) : PotaLogbookApp :=
  App l (config st) (province_combo st) (park_table_model st) (files st) (events st).
Definition set_config (c : value) (st : PotaLogbookApp) : PotaLogbookApp :=
  App (all_parks st) c (province_combo st) (park_table_model st) (files st) (events st).
Definition set_province_combo (c : option string) (st : PotaLogbookApp) : PotaLogbookApp :=
  App (all_parks st) (config st) c (park_table_model st) (files st) (events st).
Definition update_data (new_data : list value) (st : PotaLogbookApp) : PotaLogbookApp :=
  App (all_parks st) (config st) (province_combo st) new_data (files st) (events st).
Definition emit (e : event) (st : PotaLogbookApp) : PotaLogbookApp :=
  App (all_parks st) (config st) (province_combo st) (park_table_model st)
      (files st) (events st ++ [e]).
Definition write_json (path : string) (doc : value) (st : PotaLogbookApp) : PotaLogbookApp :=
  App (all_parks st) (config st) (province_combo st) (park_table_model st)
      (<[path := Json doc]> (files st)) (events st ++ [Wrote path doc]).

(** A method of the window: it changes the state and returns or raises.
    What was changed before an exception stays changed. *)
Definition M (A : Type) : Type := PotaLogbookApp -> PotaLogbookApp * result A.

Definition ret {A} (a : A) : M A := fun st => (st, Ok a).
Definition bind {A B} (m : M A) (k : A -> M B) : M B :=
  fun st => match m st with
            | (st', Ok a) => k a st'
            | (st', Raise e) => (st', Raise e)
            end.
Definition lift {A} (r : result A) : M A := fun st => (st, r).
Definition gets {A} (f : PotaLogbookApp -> A) : M A := fun st => (st, Ok (f st)).
Definition modify (f : PotaLogbookApp -> PotaLogbookApp) : M unit := fun st => (f st, Ok tt).

Notation "'do' x <- m ; k" := (bind m (fun x => k))
  (at level 10, x name, m at level 100, k at level 200).
Notation "'run' m ; k" := (bind m (fun _ => k))
  (at level 10, m at level 100, k at level 200).

(* ===================================================================== *)
(** * Configuration and catalog files *)
(* ===================================================================== *)

(** [load_config]: every failure of [json.load] is caught. *)
Definition load_config (fs : gmap string document) : value :=
  match fs !! CONFIG_FILE with
  | Some (Json v) => v
  | Some NotJson => VDict ∅
  | None => VDict ∅
  end.

Definition save_config : M unit :=
  do cfg <- gets config;
  modify (write_json CONFIG_FILE cfg).

Definition load_parks_from_json : M unit :=
  do fs <- gets files;
  match fs !! PARKS_DATA_FILE with
  | Some doc =>
      do data <- lift (json_load doc);
      match data with
      | VList l => modify (set_all_parks l)
      | _ => ret tt
      end
  | None => ret tt
  end.

Definition save_parks_to_json : M unit :=
  do parks <- gets all_parks;
  modify (write_json PARKS_DATA_FILE (VList parks)).

(** The state in which [__init__] calls [load_parks_from_json]: the catalog
    has just been set to the empty list and the configuration loaded; the
    selector starts on "all provinces" and the table empty. *)
Definition init_state (fs : gmap string document) : PotaLogbookApp :=
  App [] (load_config fs) None [] fs [].

(* ===================================================================== *)
(** * Filtering *)
(* ===================================================================== *)

(** [[p for p in parks if code in p['provinces']]]. *)
Fixpoint parks_in_province (code : string) (parks : list value)
  : result (list value) :=
  match parks with
  | [] => Ok []
  | p :: ps =>
      try provinces <- py_getitem p "provinces";
      try keep <- py_contains code provinces;
      try tl <- parks_in_province code ps;
      Ok (if keep : bool then p :: tl else tl)
  end.

(** [self.all_parks if code is None else [...]]. *)
Definition select_parks (code : option string) (parks : list value)
  : result (list value) :=
  match code with
  | None => Ok parks
  | Some c => parks_in_province c parks
  end.

(** [ParkTableModel.data(index, Qt.ItemDataRole.UserRole)] for an index in
    the row of [park]: the sort key of the row.  [re.search] raises
    [TypeError] on what is not a string. *)
Definition ParkTableModel_data_UserRole (park : value) : result Z :=
  try reference <- py_getitem park "reference";
  match reference with
  | VStr s => get_park_number_int s
  | _ => Raise TypeError
  end.

(** The outcome of Python code that Qt calls. *)
Definition qt_fatal {A} (r : result A) : result A :=
  match r with
  | Ok a => Ok a
  | Raise (QtFatal e) => Raise (QtFatal e)
  | Raise e => Raise (QtFatal e)
  end.

Fixpoint read_sort_keys (rows : list value) : result unit :=
  match rows with
  | [] => Ok tt
  | park :: ps =>
      try _key <- ParkTableModel_data_UserRole park;
      read_sort_keys ps
  end.

(** The table view has sorting enabled and the proxy sorts on [UserRole]
    ([setSortRole], [setSortingEnabled] in [setup_ui]): when the source
    model is reset the proxy sorts its rows again, and to compare two rows
    it asks [ParkTableModel.data] for their keys.  With fewer than two rows
    nothing is compared; with two or more the key of every row is read.
    The order of the reads is that of Qt's sort, which changes at most
    which of two rows that raise is reached first. *)
Definition sort_source_rows (rows : list value) : result unit :=
  match rows with
  | [] | [_] => Ok tt
  | _ => qt_fatal (read_sort_keys rows)
  end.

(** [update_activation_buttons] puts a button on every row whose park is
    not activated; of that, only the reads of the records are kept.  The
    proxy may hand the rows over in sorted order, which changes at most
    which of two rows that raise is reached first. *)
Fixpoint update_activation_buttons_rows (rows : list value) : result unit :=
  match rows with
  | [] => Ok tt
  | park :: ps =>
      try activated <- py_get park "activated" (VBool false);
      try _ref <- (if truthy activated then Ok VNone
                   else py_getitem park "reference");
      update_activation_buttons_rows ps
  end.

Definition update_activation_buttons : M unit :=
  do rows <- gets park_table_model;
  lift (update_activation_buttons_rows rows).

Definition code_value (code : option string) : value :=
  match code with
  | Some c => VStr c
  | None => VNone
  end.

(** [ParkTableModel.update_data]: the field is written between
    [beginResetModel] and [endResetModel], and the reset makes the proxy
    sort the new rows. *)
Definition ParkTableModel_update_data (new_data : list value) : M unit :=
  run modify (update_data new_data);
  lift (sort_source_rows new_data).

Definition filter_parks : M unit :=
  do code <- gets province_combo;
  do cfg <- gets config;
  do cfg' <- lift (py_setitem cfg "last_province_code" (code_value code));
  run modify (set_config cfg');
  run save_config;
  do all <- gets all_parks;
  do parks <- lift (select_parks code all);
  run ParkTableModel_update_data parks;
  update_activation_buttons.

(* ===================================================================== *)
(** * CSV import *)
(* ===================================================================== *)

(** A row of [csv.DictReader]: [row !! k] is [row.get(k)], [None] for a
    column the header lacks and for a cell a short line lacks. *)
Notation row := (gmap string string).

(** [{p['reference']: p for p in parks}], as far as a string key can look
    it up: a later park replaces an earlier one with the same reference. *)
Fixpoint index_by_reference (parks : list value)
    (existing : gmap string (gmap string value))
  : result (gmap string (gmap string value)) :=
  match parks with
  | [] => Ok existing
  | p :: ps =>
      match p with
      | VDict d =>
          match d !! "reference" with
          | None => Raise (KeyError "reference")
          | Some (VStr ref) => index_by_reference ps (<[ref := d]> existing)
          | Some (VList _) => Raise TypeError     (* unhashable *)
          | Some (VDict _) => Raise TypeError     (* unhashable *)
          | Some _ => index_by_reference ps existing
          end
      | _ => Raise TypeError
      end
  end.

(** [[c.strip() for c in desc.split(',') if c.strip() in PROVINCE_MAP]]. *)
Definition provinces_of (desc : string) : list string :=
  strip <$> filter (fun c => in_province_map (strip c)) (split "," desc).

Definition park_record (ref name : string) (provinces : list string)
    (activated activation_time : value) : value :=
  VDict (<["reference" := VStr ref]>
        (<["name" := VStr name]>
        (<["provinces" := VList (VStr <$> provinces)]>
        (<["activated" := activated]>
        (<["activation_time" := activation_time]> ∅))))).

(** [not x] for what [row.get] returns. *)
Definition falsy (x : option string) : bool :=
  match x with
  | None => true
  | Some s => String.eqb s ""
  end.

(** One turn of the loop over the rows. *)
Definition import_row (existing : gmap string (gmap string value))
    (acc : list value * nat) (r : row) : list value * nat :=
  let '(new_list, processed_count) := acc in
  let '(ref, name, desc) := (r !! "reference", r !! "name", r !! "locationDesc") in
  if falsy ref || falsy name || falsy desc then acc
  else
    let provinces := provinces_of (default "" desc) in
    let exist := default ∅ (existing !! default "" ref) in
    (new_list ++ [park_record (default "" ref) (default "" name) provinces
                    (default (VBool false) (exist !! "activated"))
                    (default VNone (exist !! "activation_time"))],
     S processed_count).

(** [reader] is what opening the file and reading it as CSV gives: its rows,
    or the exception of [open] or of the decoder. *)
Definition load_parks_from_csv (reader : result (list row)) : M nat :=
  do parks <- gets all_parks;
  do existing <- lift (index_by_reference parks ∅);
  do rows <- lift reader;
  let '(new_list, processed_count) :=
    fold_left (import_row existing) rows ([], 0%nat) in
  run modify (set_all_parks new_list);
  ret processed_count.

(** [chosen] is the file picked in the dialog, [None] when it is dismissed. *)
Definition import_csv_action (chosen : option (result (list row))) : M unit :=
  match chosen with
  | Some reader =>
      do park_count <- load_parks_from_csv reader;
      run save_parks_to_json;
      run filter_parks;
      modify (emit (InfoImported park_count))
  | None => ret tt
  end.

(* ===================================================================== *)
(** * Activation *)
(* ===================================================================== *)

(** [next((p for p in parks if p['reference'] == park_ref), None)], with the
    position of the park found: the dict is changed in place there. *)
Fixpoint find_park (park_ref : string) (parks : list value) (i : nat)
  : result (option (nat * value)) :=
  match parks with
  | [] => Ok None
  | p :: ps =>
      try r <- py_getitem p "reference";
      if py_eq_str r park_ref then Ok (Some (i, p))
      else find_park park_ref ps (S i)
  end.

(** [dlg] is how the date dialog ends: [Some date] when it is confirmed
    ([accept_activation] stores the date, then accepts), [None] when it is
    cancelled, the only other way out.  The table holds the same dicts as
    the catalog; its rows are taken anew from the catalog by [filter_parks]
    right after the change. *)
Definition prompt_activation (dlg : option string) (park_ref : string) : M unit :=
  do parks <- gets all_parks;
  do found <- lift (find_park park_ref parks 0);
  match found with
  | None => modify (emit (WarnNotFound park_ref))
  | Some (i, park) =>
      if negb (truthy park) then modify (emit (WarnNotFound park_ref))
      else
        do _name <- lift (py_getitem park "name");
        match dlg with
        | Some activation_time =>
            do park1 <- lift (py_setitem park "activated" (VBool true));
            do park2 <- lift (py_setitem park1 "activation_time" (VStr activation_time));
            run modify (set_all_parks (<[i := park2]> parks));
            run save_parks_to_json;
            run filter_parks;
            modify (emit (InfoActivated park_ref activation_time))
        | None => ret tt
        end
  end.

(* ===================================================================== *)
(** * The data model: park records *)
(* ===================================================================== *)

Definition field (k : string) (v : value) : option value :=
  match v with
  | VDict d => d !! k
  | _ => None
  end.

Definition as_str (v : value) : option string :=
  match v with
  | VStr s => Some s
  | _ => None
  end.

Definition is_str (v : value) : bool :=
  match v with
  | VStr _ => true
  | _ => false
  end.

Definition is_dict (v : value) : bool :=
  match v with
  | VDict _ => true
  | _ => false
  end.

(** A park record: a dict with a string [reference], a string [name], a
    list of strings [provinces], a boolean [activated] and an
    [activation_time] that is [None] or a string. *)
Definition is_park (v : value) : bool :=
  match field "reference" v, field "name" v, field "provinces" v,
        field "activated" v, field "activation_time" v with
  | Some (VStr _), Some (VStr _), Some (VList l), Some (VBool _), Some t =>
      forallb is_str l && match t with VNone | VStr _ => true | _ => false end
  | _, _, _, _, _ => false
  end.

Definition reference_of (p : value) : option string :=
  field "reference" p ≫= as_str.

Definition provinces_of_park (p : value) : list string :=
  match field "provinces" p with
  | Some (VList l) => omap as_str l
  | _ => []
  end.

(** The sort key of a record can be read. *)
Definition sort_key_ok (p : value) : bool :=
  match ParkTableModel_data_UserRole p with
  | Ok _ => true
  | Raise _ => false
  end.

(** The rows can be sorted: there are fewer than two, or the sort key of
    every one can be read. *)
Definition sortable (rows : list value) : bool :=
  (length rows <? 2)%nat || forallb sort_key_ok rows.

(** [activated] is true exactly when [activation_time] is not null. *)
Definition consistent (p : value) : Prop :=
  field "activated" p = Some (VBool true) <->
  exists t, field "activation_time" p = Some t /\ t <> VNone.

(** The park after a confirmed activation on [date]. *)
Definition activated_on (date : string) (p : value) : value :=
  match p with
  | VDict d => VDict (<["activation_time" := VStr date]> (<["activated" := VBool true]> d))
  | _ => p
  end.

(** The last park of the catalog with a given reference. *)
Fixpoint last_with_reference (ref : string) (parks : list value) : option value :=
  match parks with
  | [] => None
  | p :: ps =>
      match last_with_reference ref ps with
      | Some q => Some q
      | None => if bool_decide (reference_of p = Some ref) then Some p else None
      end
  end.

(** ** The import as the specification words it *)

(** A row has its three fields, none of them empty. *)
Definition row_complete (r : row) : bool :=
  negb (falsy (r !! "reference")) && negb (falsy (r !! "name")) &&
  negb (falsy (r !! "locationDesc")).

Definition row_reference (r : row) : string := default "" (r !! "reference").
Definition row_name (r : row) : string := default "" (r !! "name").
Definition row_desc (r : row) : string := default "" (r !! "locationDesc").

(** Split on commas, trim every token, keep the keys of the table. *)
Definition spec_provinces (desc : string) : list string :=
  filter (fun c => in_province_map c) (strip <$> split "," desc).

(** The record of a complete row, given the catalog it is merged with. *)
Definition spec_record (old : list value) (r : row) : value :=
  let prev := last_with_reference (row_reference r) old in
  park_record (row_reference r) (row_name r) (spec_provinces (row_desc r))
    (default (VBool false) (prev ≫= field "activated"))
    (default VNone (prev ≫= field "activation_time")).

Definition spec_import (old : list value) (rows : list row) : list value :=
  spec_record old <$> filter (fun r => row_complete r) rows.

(** A run of activation requests, each with the way its dialog ends. *)
Definition activations (acts : list (string * option string))
    (st : PotaLogbookApp) : PotaLogbookApp :=
  fold_left (fun st a => fst (prompt_activation (snd a) (fst a) st)) acts st.

(** The catalog holds, row for row, the records of the rows that give one,
    whatever their activation state. *)
Definition matches_rows (rows : list row) (parks : list value) : Prop :=
  Forall2 (fun r p =>
             is_park p /\
             exists a t, p = park_record (row_reference r) (row_name r)
                               (spec_provinces (row_desc r)) a t)
          (filter (fun r => row_complete r) rows) parks.

Definition row3 (ref name desc : string) : row :=
  <["reference" := ref]> (<["name" := name]> (<["locationDesc" := desc]> ∅)).

(** A CSV in which two rows have the same reference. *)
Definition two_gates : list row :=
  [row3 "CN-0001" "North Gate" "CN-BJ"; row3 "CN-0001" "South Gate" "CN-BJ"].

(** ** Sample data *)

Definition sample_parks : list value :=
  [park_record "CN-0012" "Test Park" ["CN-AH"] (VBool false) VNone;
   park_record "CN-0100" "Great Wall" ["CN-BJ"; "CN-HE"] (VBool false) VNone;
   park_record "CN-0007" "Lake" ["CN-JS"; "CN-AH"] (VBool true) (VStr "2023-10-02")].

(** A window on [sample_parks], with the selector on [code]. *)
Definition sample_app (code : option string) : PotaLogbookApp :=
  App sample_parks (VDict ∅) code [] ∅ [].

(** Three rows; the second has no name. *)
Definition sample_rows : list row :=
  [row3 "CN-0012" "Test Park" "Anhui, CN-AH, China";
   row3 "CN-0013" "" "CN-BJ";
   row3 "CN-0020" "New Park" "CN-BJ, CN-HE"].

(** Working directories: a catalog file that is not JSON, one that holds
    an object, one that holds an array with a record without provinces. *)
Definition broken_dir : gmap string document :=
  {[PARKS_DATA_FILE := NotJson]}.
Definition object_dir : gmap string document :=
  {[PARKS_DATA_FILE := Json (VDict {["reference" := VStr "CN-0012"]})]}.
Definition shapeless_dir : gmap string document :=
  {[PARKS_DATA_FILE :=
      Json (VList [park_record "CN-0012" "Test Park" ["CN-AH"] (VBool false) VNone;
                   VDict {["reference" := VStr "CN-0100"]}])]}.

(** What the user can do, and a session as a run of such actions.  In the
    program a handler that raises ends the run; here the next action
    starts from the state that handler left, so that every run of the
    program is the beginning of one of these. *)
Inductive action :=
| ImportCsv (chosen : option (result (list row)))
| Activate (park_ref : string) (dlg : option string)
| SelectProvince (code : option string).

Definition perform (st : PotaLogbookApp) (a : action) : PotaLogbookApp :=
  match a with
  | ImportCsv chosen => fst (import_csv_action chosen st)
  | Activate park_ref dlg => fst (prompt_activation dlg park_ref st)
  | SelectProvince code => fst (filter_parks (set_province_combo code st))
  end.

Definition session (acts : list action) (st : PotaLogbookApp) : PotaLogbookApp :=
  fold_left perform acts st.

(* ===================================================================== *)
(** * Start-up *)
(* ===================================================================== *)

(** [restore_last_province].  The selector holds "all provinces", with no
    data, and one entry per key of [PROVINCE_MAP], with the key as data:
    [findData] finds an entry exactly for a string that is such a key, and
    never the first entry.  [setCurrentIndex] then moves the selection and,
    through [currentIndexChanged], runs [filter_parks] as a slot: what the
    slot raises does not come back to [restore_last_province], it ends the
    process. *)
Definition qt_slot {A} (m : M A) : M A :=
  fun st => (fst (m st), qt_fatal (snd (m st))).

Definition restore_last_province : M unit :=
  do cfg <- gets config;
  do last_code <- lift (py_get cfg "last_province_code" VNone);
  if truthy last_code then
    match last_code with
    | VStr c =>
        if in_province_map c then
          run modify (set_province_combo (Some c));
          qt_slot filter_parks
        else ret tt
    | _ => ret tt
    end
  else ret tt.

(** [PotaLogbookApp.__init__] in the working directory [fs]: [init_state]
    is the window with its empty catalog, its configuration loaded and the
    widgets of [setup_ui]. *)
Definition PotaLogbookApp_init (fs : gmap string document)
  : PotaLogbookApp * result unit :=
  (run load_parks_from_json;
   run restore_last_province;
   filter_parks) (init_state fs).

(** What a match of [park_number_pattern] starts with. *)
Definition trigger (post : string) : string :=
  String "-" (String backslash (String "d" post)).

(** The catalog file holds the catalog of the window. *)
Definition saved (st : PotaLogbookApp) : Prop :=
  files st !! PARKS_DATA_FILE = Some (Json (VList (all_parks st))).

(** A catalog file whose second record has no reference. *)
Definition nameless_dir : gmap string document :=
  {[PARKS_DATA_FILE :=
      Json (VList [park_record "CN-0012" "Test Park" ["CN-AH"] (VBool false) VNone;
                   VDict {["name" := VStr "Nameless"]}])]}.

(** A configuration file that holds a list, and one that is not JSON. *)
Definition list_config_dir : gmap string document :=
  {[CONFIG_FILE := Json (VList [VStr "CN-AH"])]}.
Definition broken_config_dir : gmap string document :=
  {[CONFIG_FILE := NotJson]}.

(** A window on two parks, the second with a reference that the pattern
    of [get_park_number_int] matches. *)
Definition odd_app : PotaLogbookApp :=
  App [park_record "CN-0012" "Test Park" ["CN-AH"] (VBool false) VNone;
       park_record ("CN" +:+ trigger "1") "Odd Park" ["CN-AH"] (VBool false) VNone]
      (VDict ∅) None [] ∅ [].

(** [sample_app], its catalog on disk. *)
Definition sample_saved (code : option string) : PotaLogbookApp :=
  App sample_parks (VDict ∅) code []
      {[PARKS_DATA_FILE := Json (VList sample_parks)]} [].

(* ===================================================================== *)
(** * The numeric sort key: what the pattern of the source matches *)
(* ===================================================================== *)

Section SortKey.

Lemma matches_Lit (c : ascii) (s : string) (h : Re.hit) :
  h ∈ Re.matches (Re.Lit c) s <->
  exists s', s = String c s' /\ h = Re.Hit (String c EmptyString) s' None.
Proof.
  destruct s as [|c' s']; cbn [Re.matches].
  - split; [by intros ?%elem_of_nil | by intros (? & ? & _)].
  - destruct (Ascii.eqb_spec c c') as [<-|Hne].
    + rewrite list_elem_of_singleton. naive_solver.
    + split; [by intros ?%elem_of_nil | intros (? & [= ? _] & _); done].
Qed.

Lemma matches_Seq (r1 r2 : Re.regex) (s : string) (h : Re.hit) :
  h ∈ Re.matches (Re.Seq r1 r2) s <->
  exists h1 h2, h1 ∈ Re.matches r1 s /\ h2 ∈ Re.matches r2 (Re.rest h1) /\
    h = Re.Hit (Re.consumed h1 +:+ Re.consumed h2) (Re.rest h2)
               (Re.later_group (Re.group1 h1) (Re.group1 h2)).
Proof.
  cbn [Re.matches]. rewrite list_elem_of_bind. split.
  - intros (h1 & (h2 & Hh & H2)%list_elem_of_bind & H1).
    apply list_elem_of_singleton in Hh. eauto.
  - intros (h1 & h2 & H1 & H2 & ->). exists h1. split; [|done].
    apply list_elem_of_bind. exists h2. split; [|done].
    by apply list_elem_of_singleton.
Qed.

Lemma matches_Group (r : Re.regex) (s : string) (h : Re.hit) :
  h ∈ Re.matches (Re.Group r) s <->
  exists h1, h1 ∈ Re.matches r s /\
    h = Re.Hit (Re.consumed h1) (Re.rest h1) (Some (Re.consumed h1)).
Proof.
  cbn [Re.matches]. rewrite list_elem_of_bind. split.
  - intros (h1 & Hh%list_elem_of_singleton & H1). eauto.
  - intros (h1 & H1 & ->). exists h1. split; [|done].
    by apply list_elem_of_singleton.
Qed.

(** Whatever the pattern of the source captures starts with a backslash. *)
Lemma park_number_pattern_group (s : string) (h : Re.hit) :
  h ∈ Re.matches park_number_pattern s ->
  exists t, Re.group1 h = Some (String backslash t).
Proof.
  unfold park_number_pattern.
  intros (h1 & h2 & _ & (h3 & H3 & ->)%matches_Group & ->)%matches_Seq.
  apply matches_Seq in H3 as (h4 & h5 & (s' & _ & ->)%matches_Lit & _ & ->).
  cbn. eauto.
Qed.

Lemma search_park_number_pattern (s : string) :
  Re.search park_number_pattern s = None \/
  exists t, Re.search park_number_pattern s = Some (Some (String backslash t)).
Proof.
  induction s as [|c s IH]; cbn [Re.search].
  - destruct (Re.matches park_number_pattern EmptyString) as [|h l] eqn:E;
      [by left|right].
    destruct (park_number_pattern_group EmptyString h) as [t ->]; [|eauto].
    rewrite E. apply list_elem_of_here.
  - destruct (Re.matches park_number_pattern (String c s)) as [|h l] eqn:E;
      [done|right].
    destruct (park_number_pattern_group (String c s) h) as [t ->]; [|eauto].
    rewrite E. apply list_elem_of_here.
Qed.

Lemma rstrip_keeps_head (c : ascii) (t : string) :
  is_space c = false -> exists t', rstrip (String c t) = String c t'.
Proof.
  intros Hc. cbn [rstrip]. destruct (rstrip t); rewrite ?Hc; eauto.
Qed.

(** [int] rejects a text that starts with a backslash. *)
Lemma py_int_backslash (t : string) :
  py_int (String backslash t) = Raise ValueError.
Proof.
  unfold py_int, strip. cbn [lstrip].
  replace (is_space backslash) with false by reflexivity.
  destruct (rstrip_keeps_head backslash t) as [t' ->]; [done|].
  reflexivity.
Qed.

(** The key of the source is never a park number: it is 0, or the call
    raises. *)
Lemma get_park_number_int_range (reference : string) :
  get_park_number_int reference = Ok 0 \/
  get_park_number_int reference = Raise ValueError.
Proof.
  unfold get_park_number_int.
  destruct (search_park_number_pattern reference) as [->|[t ->]]; [by left|].
  right. apply py_int_backslash.
Qed.

(** C1. The key of ["CN-0012"] is meant to be 12, the digits after the
    dash, and the pattern the specification words gives 12; the function
    of the source returns 0, since its pattern asks for a backslash after
    the dash.  On ["BADREF"] both give 0. *)
Theorem get_park_number_int_CN_0012 :
  get_park_number_int "CN-0012" = Ok 0 /\
  sort_key_spec "CN-0012" = Ok 12 /\
  get_park_number_int "BADREF" = Ok 0 /\
  sort_key_spec "BADREF" = Ok 0.
Proof. repeat split; vm_compute; reflexivity. Qed.

End SortKey.

(* ===================================================================== *)
(** * Park records: inversion *)
(* ===================================================================== *)

Lemma is_park_inv (p : value) :
  is_park p ->
  exists d ref name l b t,
    p = VDict d /\ d !! "reference" = Some (VStr ref) /\
    d !! "name" = Some (VStr name) /\ d !! "provinces" = Some (VList l) /\
    d !! "activated" = Some (VBool b) /\ d !! "activation_time" = Some t /\
    forallb is_str l /\ (t = VNone \/ exists s, t = VStr s).
Proof.
  unfold is_park. destruct p as [| | | | |d]; cbn [field]; try done.
  intros H. repeat case_match; try done;
    apply andb_prop_elim in H; destruct H as [Hl Ht]; try done; subst;
    eexists _, _, _, _, _, _; split_and!; eauto.
Qed.

Lemma is_park_intro (d : gmap string value) (ref name : string)
    (l : list value) (b : bool) (t : value) :
  d !! "reference" = Some (VStr ref) -> d !! "name" = Some (VStr name) ->
  d !! "provinces" = Some (VList l) -> d !! "activated" = Some (VBool b) ->
  d !! "activation_time" = Some t ->
  forallb is_str l -> t = VNone \/ (exists s, t = VStr s) ->
  is_park (VDict d).
Proof.
  intros Hr Hn Hp Ha Ht Hl Hshape. unfold is_park. cbn [field].
  rewrite Hr, Hn, Hp, Ha, Ht. apply andb_prop_intro. split; [done|].
  by destruct Hshape as [->|[s ->]].
Qed.

Lemma is_park_reference (p : value) :
  is_park p -> exists ref, reference_of p = Some ref.
Proof.
  intros (d & ref & ? & ? & ? & ? & -> & Href & _)%is_park_inv.
  exists ref. unfold reference_of. cbn. by rewrite Href.
Qed.

(* ===================================================================== *)
(** * The catalog store *)
(* ===================================================================== *)

Section CatalogStore.

Lemma load_parks_from_json_array (st : PotaLogbookApp) (l : list value) :
  files st !! PARKS_DATA_FILE = Some (Json (VList l)) ->
  load_parks_from_json st = (set_all_parks l st, Ok tt).
Proof.
  intros H. unfold load_parks_from_json, bind, gets. by rewrite H.
Qed.

(** C9. Loading the catalog at start-up, where it has just been set to
    the empty list: without the file the catalog is empty; a file that is
    not JSON makes the load raise, and nothing catches it; a file whose
    JSON is not an array is passed over, and the catalog is left empty. *)
Theorem load_parks_from_json_cases (fs : gmap string document) :
  (fs !! PARKS_DATA_FILE = None ->
     snd (load_parks_from_json (init_state fs)) = Ok tt /\
     all_parks (fst (load_parks_from_json (init_state fs))) = []) /\
  (fs !! PARKS_DATA_FILE = Some NotJson ->
     snd (load_parks_from_json (init_state fs)) = Raise JSONDecodeError) /\
  (forall v, fs !! PARKS_DATA_FILE = Some (Json v) ->
     (forall l, v <> VList l) ->
     snd (load_parks_from_json (init_state fs)) = Ok tt /\
     all_parks (fst (load_parks_from_json (init_state fs))) = []).
Proof.
  unfold load_parks_from_json, bind, gets. cbn [init_state files fst snd].
  split_and!; [by intros -> | by intros -> |].
  intros v -> Hv. destruct v; try done. by destruct (Hv l).
Qed.

Lemma load_parks_from_json_cases_witness :
  all_parks (fst (load_parks_from_json (init_state ∅))) = [] /\
  snd (load_parks_from_json (init_state broken_dir)) = Raise JSONDecodeError /\
  snd (load_parks_from_json (init_state object_dir)) = Ok tt /\
  all_parks (fst (load_parks_from_json (init_state object_dir))) = [].
Proof.
  split_and!.
  - apply (load_parks_from_json_cases ∅). reflexivity.
  - apply (load_parks_from_json_cases broken_dir). reflexivity.
  - eapply (load_parks_from_json_cases object_dir); [reflexivity | discriminate].
  - eapply (load_parks_from_json_cases object_dir); [reflexivity | discriminate].
Defined.

End CatalogStore.

(* ===================================================================== *)
(** * Filtering by province *)
(* ===================================================================== *)

Section Filtering.

Lemma py_eq_str_true (v : value) (c : string) :
  py_eq_str v c = true <-> v = VStr c.
Proof.
  destruct v; cbn; try (split; [done | intros [=]]).
  rewrite String.eqb_eq. naive_solver.
Qed.

Lemma py_contains_list (c : string) (l : list value) :
  existsb (fun x => py_eq_str x c) l = bool_decide (c ∈ omap as_str l).
Proof.
  induction l as [|v l IH]; [done|]. cbn [existsb omap list_omap].
  rewrite IH. destruct v; cbn [py_eq_str as_str orb]; try done.
  destruct (String.eqb_spec s c) as [->|Hne]; cbn [orb].
  - symmetry. apply bool_decide_eq_true. apply list_elem_of_here.
  - apply bool_decide_ext. rewrite elem_of_cons. naive_solver.
Qed.

Lemma parks_in_province_parks (c : string) (parks : list value) :
  Forall is_park parks ->
  parks_in_province c parks =
    Ok (filter (fun p => c ∈ provinces_of_park p) parks).
Proof.
  induction 1 as [|p ps Hp _ IH]; [done|].
  cbn [parks_in_province]. rewrite IH.
  apply is_park_inv in Hp as (d & ? & ? & l & ? & ? & -> & _ & _ & Hl & _).
  assert (provinces_of_park (VDict d) = omap as_str l) as Hprov.
  { unfold provinces_of_park. cbn [field]. by rewrite Hl. }
  cbn [py_getitem]. rewrite Hl. cbn [rbind py_contains].
  rewrite py_contains_list, filter_cons, Hprov.
  by case_bool_decide; case_decide.
Qed.

Lemma update_activation_buttons_rows_parks (rows : list value) :
  Forall is_park rows -> update_activation_buttons_rows rows = Ok tt.
Proof.
  induction 1 as [|p ps Hp _ IH]; [done|].
  cbn [update_activation_buttons_rows]. rewrite IH.
  apply is_park_inv in Hp as (d & ? & ? & ? & b & ? & -> & Hr & _ & _ & Ha & _).
  cbn. rewrite Ha. cbn. destruct b; [done|]. by rewrite Hr.
Qed.

Lemma select_parks_parks (code : option string) (parks : list value) :
  Forall is_park parks ->
  exists shown, select_parks code parks = Ok shown /\ Forall is_park shown /\
    shown = match code with
            | None => parks
            | Some c => filter (fun p => c ∈ provinces_of_park p) parks
            end.
Proof.
  intros Hparks. destruct code as [c|]; cbn [select_parks].
  - rewrite parks_in_province_parks by done. eexists. split_and!; [done| |done].
    apply Forall_forall. intros p [_ Hp]%list_elem_of_filter.
    by eapply Forall_forall in Hparks.
  - eauto.
Qed.

(** ** The sort keys the proxy reads *)

Lemma ParkTableModel_data_UserRole_park (p : value) :
  is_park p ->
  ParkTableModel_data_UserRole p = Ok 0 \/
  ParkTableModel_data_UserRole p = Raise ValueError.
Proof.
  intros (d & ref & ? & ? & ? & ? & -> & Hr & _)%is_park_inv.
  unfold ParkTableModel_data_UserRole. cbn [py_getitem]. rewrite Hr.
  cbn [rbind]. apply get_park_number_int_range.
Qed.

Lemma read_sort_keys_ok (rows : list value) :
  read_sort_keys rows = Ok tt <-> forallb sort_key_ok rows.
Proof.
  induction rows as [|p ps IH]; [done|].
  cbn [read_sort_keys forallb]. unfold sort_key_ok at 1.
  destruct (ParkTableModel_data_UserRole p); cbn [rbind andb]; [done|].
  split; [done | intros []].
Qed.

Lemma read_sort_keys_parks (rows : list value) :
  Forall is_park rows ->
  read_sort_keys rows = Ok tt \/ read_sort_keys rows = Raise ValueError.
Proof.
  induction 1 as [|p ps Hp _ IH]; [by left|]. cbn [read_sort_keys].
  destruct (ParkTableModel_data_UserRole_park p Hp) as [-> | ->]; cbn [rbind];
    [done | by right].
Qed.

(** The proxy gets through its sort exactly on rows that are [sortable]. *)
Lemma sort_source_rows_ok (rows : list value) :
  sort_source_rows rows = Ok tt <-> sortable rows.
Proof.
  destruct rows as [|p [|q rows]]; [done..|].
  rewrite <- (read_sort_keys_ok (p :: q :: rows)).
  cbn [sort_source_rows].
  destruct (read_sort_keys (p :: q :: rows)) as [[]|e]; [done|].
  by destruct e.
Qed.

(** On park records what stops the sort is the [ValueError] of [int]. *)
Lemma sort_source_rows_parks (rows : list value) :
  Forall is_park rows ->
  (sortable rows -> sort_source_rows rows = Ok tt) /\
  (~ sortable rows -> sort_source_rows rows = Raise (QtFatal ValueError)).
Proof.
  intros Hrows. split; [apply sort_source_rows_ok|]. intros Hno.
  destruct rows as [|p [|q rows]]; [by destruct Hno..|].
  cbn [sort_source_rows].
  destruct (read_sort_keys_parks _ Hrows) as [H|H]; [|by rewrite H].
  destruct Hno. apply sort_source_rows_ok. cbn [sort_source_rows].
  by rewrite H.
Qed.

Lemma sortable_filter (P : value -> Prop) `{!forall p, Decision (P p)}
    (parks : list value) :
  Forall sort_key_ok parks -> sortable (filter P parks).
Proof.
  intros Hparks. unfold sortable. apply orb_prop_intro. right.
  apply forallb_True, Forall_forall. intros p [_ Hp]%list_elem_of_filter.
  by eapply Forall_forall in Hparks.
Qed.

Lemma sortable_all (parks : list value) :
  Forall sort_key_ok parks -> sortable parks.
Proof.
  intros Hparks. unfold sortable. apply orb_prop_intro. right.
  by apply forallb_True.
Qed.

(** What [filter_parks] does on a catalog of park records: the selected
    parks reach the table, and the outcome is that of the sort. *)
Lemma filter_parks_parks (st : PotaLogbookApp) :
  Forall is_park (all_parks st) -> is_dict (config st) ->
  exists cfg shown,
    py_setitem (config st) "last_province_code"
               (code_value (province_combo st)) = Ok cfg /\
    select_parks (province_combo st) (all_parks st) = Ok shown /\
    Forall is_park shown /\
    filter_parks st =
      (update_data shown (write_json CONFIG_FILE cfg (set_config cfg st)),
       sort_source_rows shown).
Proof.
  intros Hparks Hcfg.
  destruct (select_parks_parks (province_combo st) _ Hparks)
    as (shown & Hsel & Hshown & _).
  destruct (config st) as [| | | | |c] eqn:Ec; try done.
  eexists _, shown. split_and!; [done..|].
  unfold filter_parks, ParkTableModel_update_data, bind, gets, lift, modify,
    save_config, update_activation_buttons.
  rewrite Ec. cbn. rewrite Hsel. cbn.
  destruct (sort_source_rows shown) as [[]|e]; [|done].
  cbn. by rewrite update_activation_buttons_rows_parks.
Qed.

(** C6. On a catalog of park records, filtering by a province code gives
    exactly the parks whose provinces contain the code, in catalog order,
    and the null selection gives the whole catalog, in order.  That is
    what [filter_parks] hands to the table, and it leaves the catalog as
    it is.  The handler then returns when the rows it handed over are
    [sortable]; when they are not, the sort key of a row raises
    [ValueError] under the proxy's sort and the process ends there. *)
Theorem filter_parks_shows (parks : list value) :
  Forall is_park parks ->
  (forall code,
     select_parks code parks =
       Ok match code with
          | None => parks
          | Some c => filter (fun p => c ∈ provinces_of_park p) parks
          end) /\
  (forall st,
     all_parks st = parks -> is_dict (config st) ->
     all_parks (fst (filter_parks st)) = parks /\
     park_table_model (fst (filter_parks st)) =
       match province_combo st with
       | None => parks
       | Some c => filter (fun p => c ∈ provinces_of_park p) parks
       end /\
     (sortable (park_table_model (fst (filter_parks st))) ->
      snd (filter_parks st) = Ok tt) /\
     (~ sortable (park_table_model (fst (filter_parks st))) ->
      snd (filter_parks st) = Raise (QtFatal ValueError))).
Proof.
  intros Hparks.
  assert (forall code,
     select_parks code parks =
       Ok match code with
          | None => parks
          | Some c => filter (fun p => c ∈ provinces_of_park p) parks
          end) as Hsel.
  { intros code.
    by destruct (select_parks_parks code _ Hparks) as (shown & -> & _ & ->). }
  split; [done|]. intros st <- Hcfg.
  destruct (filter_parks_parks st)
    as (cfg & shown & _ & Hshown & Hrows & ->); [done..|].
  rewrite Hsel in Hshown. injection Hshown as <-.
  cbn [fst snd all_parks park_table_model update_data write_json set_config].
  split_and!; [done | done | apply sort_source_rows_parks; done
              | apply sort_source_rows_parks; done].
Qed.

Lemma filter_parks_shows_witness :
  park_table_model (fst (filter_parks (sample_app (Some "CN-AH"%string)))) =
    [park_record "CN-0012" "Test Park" ["CN-AH"] (VBool false) VNone;
     park_record "CN-0007" "Lake" ["CN-JS"; "CN-AH"] (VBool true) (VStr "2023-10-02")] /\
  snd (filter_parks (sample_app (Some "CN-AH"%string))) = Ok tt.
Proof.
  destruct (proj2 (filter_parks_shows sample_parks ltac:(repeat constructor))
              (sample_app (Some "CN-AH"%string)) eq_refl I)
    as (_ & Hshown & Hok & _).
  split.
  - rewrite Hshown. vm_compute. reflexivity.
  - apply Hok. vm_compute. exact I.
Defined.

Lemma parks_in_province_ok_inv (c : string) (parks shown : list value) :
  parks_in_province c parks = Ok shown ->
  Forall (fun p => exists d, p = VDict d /\ is_Some (d !! "provinces")) parks.
Proof.
  revert shown. induction parks as [|p ps IH]; intros shown; [constructor|].
  cbn [parks_in_province].
  destruct (py_getitem p "provinces") as [v|] eqn:Ep; [|done]. cbn [rbind].
  destruct (py_contains c v); [|done]. cbn [rbind].
  destruct (parks_in_province c ps) as [tl|] eqn:Etl; [|done]. intros _.
  constructor; [|by eapply IH].
  destruct p as [| | | | |d]; try done. exists d. split; [done|].
  cbn in Ep. destruct (d !! "provinces"); [by eexists|done].
Qed.

Lemma parks_in_province_missing (c : string) (pre post : list value)
    (d : gmap string value) :
  Forall is_park pre -> d !! "provinces" = None ->
  parks_in_province c (pre ++ VDict d :: post) = Raise (KeyError "provinces").
Proof.
  intros Hpre Hd. induction Hpre as [|p ps Hp _ IH]; cbn [app parks_in_province].
  - cbn. by rewrite Hd.
  - rewrite IH.
    apply is_park_inv in Hp as (dp & ? & ? & l & ? & ? & -> & _ & _ & Hl & _).
    cbn. by rewrite Hl.
Qed.

(** C10. The load takes any JSON array as the catalog, whatever its
    elements.  Filtering by a province code returns a list only when every
    record is a dict with a [provinces] key; on a loaded catalog whose
    first record that is not a park record is a dict without that key,
    [filter_parks] raises [KeyError], and no list is shown. *)
Theorem filter_parks_needs_provinces :
  (forall fs l, fs !! PARKS_DATA_FILE = Some (Json (VList l)) ->
     load_parks_from_json (init_state fs) =
       (set_all_parks l (init_state fs), Ok tt)) /\
  (forall c parks shown, select_parks (Some c) parks = Ok shown ->
     Forall (fun p => exists d, p = VDict d /\ is_Some (d !! "provinces")) parks) /\
  (forall fs c pre d post,
     fs !! PARKS_DATA_FILE = Some (Json (VList (pre ++ VDict d :: post))) ->
     Forall is_park pre -> d !! "provinces" = None ->
     is_dict (load_config fs) ->
     let st := set_province_combo (Some c)
                 (fst (load_parks_from_json (init_state fs))) in
     snd (filter_parks st) = Raise (KeyError "provinces") /\
     park_table_model (fst (filter_parks st)) = []).
Proof.
  split_and!.
  - intros fs l H. by apply load_parks_from_json_array.
  - intros c parks shown H. by eapply parks_in_province_ok_inv.
  - intros fs c pre d post Hfs Hpre Hd Hcfg st. subst st.
    rewrite (load_parks_from_json_array (init_state fs) _ Hfs).
    cbn [fst]. unfold filter_parks, ParkTableModel_update_data,
      bind, gets, lift, modify, save_config.
    cbn. destruct (load_config fs); try done. cbn.
    by rewrite parks_in_province_missing.
Qed.

Lemma filter_parks_needs_provinces_witness :
  snd (filter_parks
         (set_province_combo (Some "CN-AH"%string)
            (fst (load_parks_from_json (init_state shapeless_dir))))) =
    Raise (KeyError "provinces") /\
  park_table_model
    (fst (filter_parks
            (set_province_combo (Some "CN-AH"%string)
               (fst (load_parks_from_json (init_state shapeless_dir)))))) = [].
Proof.
  apply (proj2 (proj2 filter_parks_needs_provinces) shapeless_dir "CN-AH"%string
           [park_record "CN-0012" "Test Park" ["CN-AH"] (VBool false) VNone]
           {["reference" := VStr "CN-0100"]} []).
  - reflexivity.
  - repeat constructor.
  - reflexivity.
  - exact I.
Defined.

End Filtering.

(* ===================================================================== *)
(** * Activation *)
(* ===================================================================== *)

Section Activation.

Lemma find_park_parks (park_ref : string) (parks : list value) (k : nat) :
  Forall is_park parks ->
  find_park park_ref parks k =
    Ok (prod_map (fun i => k + i)%nat id <$>
        list_find (fun p => reference_of p = Some park_ref) parks).
Proof.
  intros Hparks. revert k.
  induction Hparks as [|p ps Hp _ IH]; intros k; [done|].
  cbn [find_park list_find].
  apply is_park_inv in Hp as (d & ref & ? & ? & ? & ? & -> & Hr & _).
  cbn [py_getitem]. rewrite Hr. cbn [rbind py_eq_str].
  assert (reference_of (VDict d) = Some ref) as Href.
  { unfold reference_of. cbn. by rewrite Hr. }
  rewrite Href. destruct (String.eqb_spec ref park_ref) as [->|Hne].
  - rewrite decide_True by done. cbn. by rewrite Nat.add_0_r.
  - rewrite decide_False by congruence. rewrite IH.
    destruct (list_find _ ps) as [[i q]|]; cbn; [|done].
    do 3 f_equal. lia.
Qed.

Lemma is_park_truthy (p : value) : is_park p -> truthy p = true.
Proof.
  intros (d & ? & ? & ? & ? & ? & -> & Hr & _)%is_park_inv. cbn.
  rewrite bool_decide_eq_false_2; [done|]. intros ->.
  by rewrite lookup_empty in Hr.
Qed.

Lemma is_park_activated_on (date : string) (p : value) :
  is_park p -> is_park (activated_on date p).
Proof.
  intros (d & ? & ? & ? & ? & ? & -> & Hr & Hn & Hp & _ & _ & Hl & _)%is_park_inv.
  cbn [activated_on].
  eapply (is_park_intro _ _ _ _ true (VStr date));
    [by simplify_map_eq.. | done | eauto].
Qed.

Lemma activated_on_fields (date : string) (p : value) :
  is_park p ->
  field "activated" (activated_on date p) = Some (VBool true) /\
  field "activation_time" (activated_on date p) = Some (VStr date) /\
  reference_of (activated_on date p) = reference_of p /\
  field "name" (activated_on date p) = field "name" p /\
  field "provinces" (activated_on date p) = field "provinces" p.
Proof.
  intros (d & ? & ? & ? & ? & ? & -> & _)%is_park_inv.
  unfold reference_of. cbn [activated_on field]. by simplify_map_eq.
Qed.

(** What a confirmed activation does when the park is found at [i]. *)
Lemma prompt_activation_found (st : PotaLogbookApp) (park_ref date : string)
    (i : nat) (p : value) :
  Forall is_park (all_parks st) -> is_dict (config st) ->
  list_find (fun p => reference_of p = Some park_ref) (all_parks st)
    = Some (i, p) ->
  exists st',
    prompt_activation (Some date) park_ref st =
      (st', sort_source_rows (park_table_model st')) /\
    all_parks st' = <[i := activated_on date p]> (all_parks st) /\
    files st' !! PARKS_DATA_FILE = Some (Json (VList (all_parks st'))) /\
    Wrote PARKS_DATA_FILE (VList (all_parks st')) ∈ events st' /\
    Forall is_park (park_table_model st').
Proof.
  intros Hparks Hcfg Hfind.
  pose proof Hfind as (Hi & _ & _)%list_find_Some.
  assert (is_park p) as Hp by exact (Forall_lookup_1 _ _ _ _ Hparks Hi).
  assert (Forall is_park (<[i := activated_on date p]> (all_parks st))) as Hparks'.
  { apply Forall_insert; [done|]. by apply is_park_activated_on. }
  unfold prompt_activation, bind at 1 2, gets at 1, lift at 1.
  rewrite find_park_parks, Hfind by done. cbn [fmap option_fmap option_map prod_map fst snd id].
  rewrite is_park_truthy by done. cbn [negb].
  pose proof Hp as (d & ? & name & ? & ? & ? & -> & _ & Hn & _)%is_park_inv.
  unfold bind at 1, lift at 1. cbn [py_getitem]. rewrite Hn.
  unfold bind at 1, lift at 1. cbn [py_setitem].
  unfold bind at 1, lift at 1.
  unfold bind at 1, modify at 1.
  unfold bind at 1, save_parks_to_json, bind at 1, gets at 1, modify at 1.
  set (st1 := write_json _ _ _).
  destruct (filter_parks_parks st1) as (cfg & shown & _ & _ & Hrows & Hf);
    [done..|].
  unfold bind at 1. rewrite Hf. unfold modify.
  destruct (sort_source_rows shown) as [[]|e] eqn:Es.
  - eexists. split; [apply pair_equal_spec; split; [reflexivity | cbn; by rewrite Es]|]. cbn.
    split_and!; [done | by simplify_map_eq | | done].
    rewrite !elem_of_app, !list_elem_of_singleton. auto.
  - eexists. split; [apply pair_equal_spec; split; [reflexivity | cbn; by rewrite Es]|]. cbn.
    split_and!; [done | by simplify_map_eq | | done].
    rewrite !elem_of_app, !list_elem_of_singleton. auto.
Qed.

Lemma prompt_activation_not_found (st : PotaLogbookApp) (park_ref : string)
    (dlg : option string) :
  Forall is_park (all_parks st) ->
  list_find (fun p => reference_of p = Some park_ref) (all_parks st) = None ->
  prompt_activation dlg park_ref st = (emit (WarnNotFound park_ref) st, Ok tt).
Proof.
  intros Hparks Hfind. unfold prompt_activation, bind, gets, lift.
  by rewrite find_park_parks, Hfind.
Qed.

(** C2. On a catalog of park records: when some park has the reference,
    a confirmed activation sets [activated] to true and [activation_time]
    to the date on the first such park, leaves the other parks as they were
    and saves the catalog; the table is then refreshed, and the call
    returns when the rows shown are [sortable], while on rows that are not
    the proxy's sort ends the process with [ValueError], the catalog
    changed and saved.  When no park has the reference, a warning is
    shown, the catalog and the files are as before and nothing is written,
    and the call returns. *)
Theorem prompt_activation_cases (st : PotaLogbookApp) (park_ref date : string) :
  Forall is_park (all_parks st) -> is_dict (config st) ->
  ((exists p, p ∈ all_parks st /\ reference_of p = Some park_ref) ->
     exists i p,
       all_parks st !! i = Some p /\ reference_of p = Some park_ref /\
       (forall j q, all_parks st !! j = Some q -> (j < i)%nat ->
                    reference_of q <> Some park_ref) /\
       field "activated" (activated_on date p) = Some (VBool true) /\
       field "activation_time" (activated_on date p) = Some (VStr date) /\
       let st' := fst (prompt_activation (Some date) park_ref st) in
       all_parks st' = <[i := activated_on date p]> (all_parks st) /\
       files st' !! PARKS_DATA_FILE = Some (Json (VList (all_parks st'))) /\
       (sortable (park_table_model st') ->
        snd (prompt_activation (Some date) park_ref st) = Ok tt) /\
       (~ sortable (park_table_model st') ->
        snd (prompt_activation (Some date) park_ref st) =
          Raise (QtFatal ValueError))) /\
  ((forall p, p ∈ all_parks st -> reference_of p <> Some park_ref) ->
     forall dlg,
       let st' := fst (prompt_activation dlg park_ref st) in
       snd (prompt_activation dlg park_ref st) = Ok tt /\
       all_parks st' = all_parks st /\
       files st' = files st /\
       events st' = events st ++ [WarnNotFound park_ref]).
Proof.
  intros Hparks Hcfg. split.
  - intros (p0 & Hin & Href).
    destruct (list_find (fun p => reference_of p = Some park_ref) (all_parks st))
      as [[i p]|] eqn:Hfind.
    + pose proof Hfind as (Hi & Hp & Hfirst)%list_find_Some.
      destruct (prompt_activation_found st park_ref date i p)
        as (st' & Hrun & Hall & Hfile & _ & Hrows); [done..|].
      assert (is_park p) as Hpark by exact (Forall_lookup_1 _ _ _ _ Hparks Hi).
      destruct (activated_on_fields date p Hpark) as (Ha & Ht & _).
      exists i, p. rewrite Hrun. cbn [fst snd]. rewrite <- Hall.
      split_and!; [done..| |]; by apply sort_source_rows_parks.
    + apply list_find_None in Hfind.
      by eapply Forall_forall in Hfind.
  - intros Hnone dlg. rewrite prompt_activation_not_found; [done..|].
    apply list_find_None, Forall_forall. intros p Hp. by apply Hnone.
Qed.

Lemma prompt_activation_cases_witness :
  (exists i p,
     all_parks (sample_app None) !! i = Some p /\
     reference_of p = Some "CN-0100"%string /\
     all_parks (fst (prompt_activation (Some "2024-05-01"%string) "CN-0100"
                       (sample_app None))) =
       <[i := activated_on "2024-05-01" p]> (all_parks (sample_app None)) /\
     snd (prompt_activation (Some "2024-05-01"%string) "CN-0100"
            (sample_app None)) = Ok tt) /\
  all_parks (fst (prompt_activation (Some "2024-05-01"%string) "CN-9999"
                    (sample_app None))) =
    all_parks (sample_app None) /\
  events (fst (prompt_activation (Some "2024-05-01"%string) "CN-9999"
                 (sample_app None))) =
    events (sample_app None) ++ [WarnNotFound "CN-9999"].
Proof.
  assert (Forall is_park (all_parks (sample_app None))) as Hparks
    by repeat constructor.
  split.
  - destruct (proj1 (prompt_activation_cases (sample_app None) "CN-0100"
                       "2024-05-01" Hparks I))
      as (i & p & Hi & Hp & _ & _ & _ & Hall & _ & Hok & _).
    + eexists. split; [apply list_elem_of_lookup; exists 1%nat; reflexivity |].
      vm_compute. reflexivity.
    + exists i, p. split; [exact Hi|]. split; [exact Hp|].
      split; [exact Hall|]. apply Hok. vm_compute. exact I.
  - destruct (proj2 (prompt_activation_cases (sample_app None) "CN-9999"
                       "2024-05-01" Hparks I))
      with (dlg := Some "2024-05-01"%string) as (_ & Hall & _ & Hev).
    + apply Forall_forall.
      repeat (constructor; [vm_compute; discriminate|]). constructor.
    + split; [exact Hall | exact Hev].
Defined.

(** The example of the specification, on [sample_parks]. *)
Example prompt_activation_example :
  all_parks (fst (prompt_activation (Some "2024-05-01"%string) "CN-0012"
                    (sample_app None))) =
    [park_record "CN-0012" "Test Park" ["CN-AH"] (VBool true) (VStr "2024-05-01");
     park_record "CN-0100" "Great Wall" ["CN-BJ"; "CN-HE"] (VBool false) VNone;
     park_record "CN-0007" "Lake" ["CN-JS"; "CN-AH"] (VBool true) (VStr "2023-10-02")].
Proof. vm_compute. reflexivity. Qed.

End Activation.

(* ===================================================================== *)
(** * CSV import *)
(* ===================================================================== *)

Section CsvImport.

Lemma reference_of_dict (d : gmap string value) (ref : string) :
  d !! "reference" = Some (VStr ref) -> reference_of (VDict d) = Some ref.
Proof. intros H. unfold reference_of. cbn. by rewrite H. Qed.

Lemma park_record_fields (ref name : string) (provinces : list string)
    (a t : value) :
  reference_of (park_record ref name provinces a t) = Some ref /\
  field "name" (park_record ref name provinces a t) = Some (VStr name) /\
  field "provinces" (park_record ref name provinces a t)
    = Some (VList (VStr <$> provinces)) /\
  field "activated" (park_record ref name provinces a t) = Some a /\
  field "activation_time" (park_record ref name provinces a t) = Some t.
Proof. unfold reference_of, park_record. cbn [field]. by simplify_map_eq. Qed.

(** The comprehension of the source filters before it trims, the
    specification trims before it filters: the tokens kept are the same. *)
Lemma provinces_of_spec (desc : string) :
  provinces_of desc = spec_provinces desc.
Proof.
  unfold provinces_of, spec_provinces.
  induction (split "," desc) as [|c l IH]; [done|].
  rewrite fmap_cons, !filter_cons. case_decide; [|done].
  by rewrite fmap_cons, IH.
Qed.

(** The dict comprehension keeps, for every reference, the last park. *)
Lemma index_by_reference_parks (parks : list value)
    (acc : gmap string (gmap string value)) :
  Forall is_park parks ->
  exists existing,
    index_by_reference parks acc = Ok existing /\
    forall ref, VDict <$> existing !! ref =
      match last_with_reference ref parks with
      | Some q => Some q
      | None => VDict <$> acc !! ref
      end.
Proof.
  intros Hparks. revert acc.
  induction Hparks as [|p ps Hp _ IH]; intros acc; [by exists acc|].
  apply is_park_inv in Hp as (d & r & ? & ? & ? & ? & -> & Hr & _).
  cbn [index_by_reference last_with_reference]. rewrite Hr.
  destruct (IH (<[r := d]> acc)) as (existing & -> & Hex).
  exists existing. split; [done|]. intros ref. rewrite Hex.
  destruct (last_with_reference ref ps); [done|].
  rewrite (reference_of_dict d r) by done.
  case_bool_decide as Href.
  - injection Href as ->. by rewrite lookup_insert_eq.
  - rewrite lookup_insert_ne; [done|]. congruence.
Qed.

Lemma falsy_false (x : option string) :
  falsy x = false <-> exists s, x = Some s /\ s <> "".
Proof.
  destruct x as [s|]; cbn; [|naive_solver].
  destruct (String.eqb_spec s ""); naive_solver.
Qed.

(** One turn of the loop: a complete row adds the record the
    specification describes, any other row adds nothing. *)
Lemma import_row_spec (old : list value)
    (existing : gmap string (gmap string value))
    (new_list : list value) (n : nat) (r : row) :
  (forall ref, VDict <$> existing !! ref = last_with_reference ref old) ->
  import_row existing (new_list, n) r =
    if row_complete r then (new_list ++ [spec_record old r], S n)
    else (new_list, n).
Proof.
  intros Hex. unfold import_row, row_complete.
  destruct (falsy (r !! "reference")); [done|].
  destruct (falsy (r !! "name")); [done|].
  destruct (falsy (r !! "locationDesc")); [done|]. cbn [orb negb andb].
  unfold spec_record, row_reference, row_name, row_desc.
  rewrite provinces_of_spec, <- Hex.
  by destruct (existing !! default "" (r !! "reference")).
Qed.

Lemma fold_import_row (old : list value)
    (existing : gmap string (gmap string value))
    (rows : list row) (new_list : list value) (n : nat) :
  (forall ref, VDict <$> existing !! ref = last_with_reference ref old) ->
  fold_left (import_row existing) rows (new_list, n) =
    (new_list ++ spec_import old rows,
     (n + length (spec_import old rows))%nat).
Proof.
  intros Hex. revert new_list n.
  induction rows as [|r rows IH]; intros new_list n.
  - cbn. by rewrite app_nil_r, Nat.add_0_r.
  - cbn [fold_left]. rewrite (import_row_spec old) by done.
    unfold spec_import.
    destruct (row_complete r) eqn:Hr.
    + rewrite filter_cons_True by (by apply Is_true_true).
      rewrite IH, fmap_cons. fold (spec_import old rows).
      rewrite <- app_assoc. cbn [app length]. f_equal. lia.
    + rewrite filter_cons_False by (by apply Is_true_false). apply IH.
Qed.

(** The import of the source is the import of the specification. *)
Lemma load_parks_from_csv_spec (st : PotaLogbookApp) (rows : list row) :
  Forall is_park (all_parks st) ->
  load_parks_from_csv (Ok rows) st =
    (set_all_parks (spec_import (all_parks st) rows) st,
     Ok (length (spec_import (all_parks st) rows))).
Proof.
  intros Hparks.
  destruct (index_by_reference_parks (all_parks st) ∅ Hparks)
    as (existing & Hidx & Hex).
  unfold load_parks_from_csv, bind, gets, lift. rewrite Hidx.
  rewrite (fold_import_row (all_parks st)).
  - done.
  - intros ref. rewrite Hex. destruct (last_with_reference _ _); [done|].
    by rewrite lookup_empty.
Qed.

Lemma row_complete_inv (r : row) :
  row_complete r ->
  exists ref name desc,
    r !! "reference" = Some ref /\ r !! "name" = Some name /\
    r !! "locationDesc" = Some desc /\
    ref <> "" /\ name <> "" /\ desc <> "" /\
    row_reference r = ref /\ row_name r = name /\ row_desc r = desc.
Proof.
  unfold row_complete, row_reference, row_name, row_desc.
  intros [[H1 H2]%andb_prop_elim H3]%andb_prop_elim.
  apply negb_prop_elim, Is_true_false, falsy_false in H1 as (ref & -> & ?).
  apply negb_prop_elim, Is_true_false, falsy_false in H2 as (name & -> & ?).
  apply negb_prop_elim, Is_true_false, falsy_false in H3 as (desc & -> & ?).
  by exists ref, name, desc.
Qed.

(** A row is passed over exactly when one of its three fields is missing
    or empty. *)
Lemma row_complete_false (r : row) :
  row_complete r = false <->
  exists k, k ∈ ["reference"; "name"; "locationDesc"] /\
            (r !! k = None \/ r !! k = Some ""%string).
Proof.
  assert (forall x : option string,
            falsy x = true <-> x = None \/ x = Some ""%string) as Hf.
  { intros [s|]; cbn; [|naive_solver].
    destruct (String.eqb_spec s ""); naive_solver. }
  unfold row_complete. rewrite !andb_false_iff, !negb_false_iff, !Hf.
  split.
  - intros [[H|H]|H]; eexists; (split; [|exact H]); set_solver.
  - intros (k & Hk & H). set_unfold. naive_solver.
Qed.

(** C3. Rows with a missing or empty [reference], [name] or
    [locationDesc] are passed over and the import does not fail; the
    other rows give, one for one and in order, the records of the new
    catalog, each with the row's reference and name and with, as
    provinces, the comma-separated tokens of [locationDesc], trimmed,
    that are keys of the province table, in order and with repeats; the
    count returned is the number of records. *)
Theorem load_parks_from_csv_rows (st : PotaLogbookApp) (rows : list row) :
  Forall is_park (all_parks st) ->
  exists new_list,
    load_parks_from_csv (Ok rows) st =
      (set_all_parks new_list st, Ok (length new_list)) /\
    Forall2 (fun r p =>
               exists ref name desc,
                 r !! "reference" = Some ref /\ r !! "name" = Some name /\
                 r !! "locationDesc" = Some desc /\
                 reference_of p = Some ref /\
                 field "name" p = Some (VStr name) /\
                 field "provinces" p =
                   Some (VList (VStr <$> filter (fun c => in_province_map c)
                                           (strip <$> split "," desc))))
            (filter (fun r => row_complete r) rows) new_list.
Proof.
  intros Hparks. exists (spec_import (all_parks st) rows).
  split; [by apply load_parks_from_csv_spec|].
  unfold spec_import. apply Forall2_fmap_r, Forall_Forall2_diag, Forall_forall.
  intros r [Hr _]%list_elem_of_filter.
  apply row_complete_inv in Hr
    as (ref & name & desc & Href & Hname & Hdesc & _ & _ & _ & Er & En & Ed).
  exists ref, name, desc. unfold spec_record. rewrite Er, En, Ed.
  pose proof (park_record_fields ref name (spec_provinces desc)) as Hf.
  split_and!; try done; apply Hf.
Qed.

Lemma load_parks_from_csv_rows_witness :
  exists new_list,
    load_parks_from_csv (Ok sample_rows) (init_state ∅) =
      (set_all_parks new_list (init_state ∅), Ok (length new_list)) /\
    length new_list = 2%nat.
Proof.
  destruct (load_parks_from_csv_rows (init_state ∅) sample_rows)
    as (new_list & Hrun & Hrows); [constructor|].
  exists new_list. split; [exact Hrun|].
  apply Forall2_length in Hrows. rewrite <- Hrows. vm_compute. reflexivity.
Defined.

(** The example of the specification: one row, an empty catalog. *)
Example load_parks_from_csv_example :
  load_parks_from_csv
    (Ok [row3 "CN-0012" "Test Park" "Anhui, CN-AH, China"]) (init_state ∅) =
  (set_all_parks
     [park_record "CN-0012" "Test Park" ["CN-AH"] (VBool false) VNone]
     (init_state ∅), Ok 1%nat).
Proof. vm_compute. reflexivity. Qed.

Lemma last_with_reference_None (ref : string) (parks : list value) :
  last_with_reference ref parks = None ->
  forall q, q ∈ parks -> reference_of q <> Some ref.
Proof.
  induction parks as [|p ps IH]; intros E q Hq; [by apply elem_of_nil in Hq|].
  cbn [last_with_reference] in E.
  destruct (last_with_reference ref ps) eqn:E'; [done|].
  case_bool_decide as Hp; [done|].
  apply elem_of_cons in Hq as [->|Hq]; [done|]. by apply IH.
Qed.

Lemma last_with_reference_Some (ref : string) (parks : list value) (q : value) :
  last_with_reference ref parks = Some q ->
  exists i, parks !! i = Some q /\ reference_of q = Some ref /\
    forall j q', parks !! j = Some q' -> (i < j)%nat ->
                 reference_of q' <> Some ref.
Proof.
  revert q. induction parks as [|p ps IH]; intros q; [done|].
  cbn [last_with_reference].
  destruct (last_with_reference ref ps) as [q0|] eqn:E.
  - intros [= ->]. destruct (IH q eq_refl) as (i & Hi & Hq & Hlast).
    exists (S i). split_and!; [done..|].
    intros [|j] q' Hj Hlt; [lia|]. apply (Hlast j); [done|lia].
  - case_bool_decide as Hp; [|done]. intros [= ->].
    exists 0%nat. split_and!; [done..|].
    intros [|j] q' Hj Hlt; [lia|]. cbn in Hj.
    eapply last_with_reference_None; [done|].
    by eapply list_elem_of_lookup_2.
Qed.

Lemma spec_import_elem (old : list value) (rows : list row) (p : value) :
  p ∈ spec_import old rows ->
  exists r, r ∈ rows /\ row_complete r /\ p = spec_record old r.
Proof.
  unfold spec_import.
  intros (r & -> & [Hc Hr]%list_elem_of_filter)%list_elem_of_fmap. eauto.
Qed.

(** C4. Every record of the new catalog comes from a row of the CSV and
    has that row's reference; its [activated] and [activation_time] are
    those of the park of the old catalog with that reference (the last
    one, should several have it), and [False] and [None] when the old
    catalog has none.  A reference that no row of the CSV has is the
    reference of no record of the new catalog. *)
Theorem load_parks_from_csv_merge (st : PotaLogbookApp) (rows : list row) :
  Forall is_park (all_parks st) ->
  let st' := fst (load_parks_from_csv (Ok rows) st) in
  (forall p, p ∈ all_parks st' ->
     exists r ref,
       r ∈ rows /\ r !! "reference" = Some ref /\ reference_of p = Some ref /\
       ((exists i q,
           all_parks st !! i = Some q /\ reference_of q = Some ref /\
           (forall j q', all_parks st !! j = Some q' -> (i < j)%nat ->
                         reference_of q' <> Some ref) /\
           field "activated" p = field "activated" q /\
           field "activation_time" p = field "activation_time" q) \/
        ((forall q, q ∈ all_parks st -> reference_of q <> Some ref) /\
         field "activated" p = Some (VBool false) /\
         field "activation_time" p = Some VNone))) /\
  (forall q ref,
     q ∈ all_parks st -> reference_of q = Some ref ->
     (forall r, r ∈ rows -> r !! "reference" <> Some ref) ->
     forall p, p ∈ all_parks st' -> reference_of p <> Some ref).
Proof.
  intros Hparks st'. subst st'. rewrite load_parks_from_csv_spec by done.
  cbn [fst set_all_parks all_parks].
  assert (forall p, p ∈ spec_import (all_parks st) rows ->
            exists r ref, r ∈ rows /\ r !! "reference" = Some ref /\
              row_reference r = ref /\ p = spec_record (all_parks st) r)
    as Hrow.
  { intros p (r & Hr & Hc & ->)%spec_import_elem.
    apply row_complete_inv in Hc as (ref & ? & ? & Href & _ & _ & _ & _ & _ & Er & _).
    by exists r, ref. }
  split.
  - intros p (r & ref & Hr & Href & Er & ->)%Hrow. exists r, ref.
    unfold spec_record. rewrite Er.
    set (prev := last_with_reference ref (all_parks st)).
    pose proof (park_record_fields ref (row_name r) (spec_provinces (row_desc r))
      (default (VBool false) (prev ≫= field "activated"))
      (default VNone (prev ≫= field "activation_time")))
      as (Hpr & _ & _ & Hpa & Hpt).
    split_and!; [done..|]. rewrite Hpa, Hpt.
    destruct prev as [q|] eqn:Eprev; subst prev.
    + left. apply last_with_reference_Some in Eprev as (i & Hi & Hq & Hlast).
      exists i, q. split_and!; [done..| |].
      * assert (is_park q) as Hpark by exact (Forall_lookup_1 _ _ _ _ Hparks Hi).
        apply is_park_inv in Hpark as (d & ? & ? & ? & ? & ? & -> & _ & _ & _ & Ha & _).
        cbn. by rewrite Ha.
      * assert (is_park q) as Hpark by exact (Forall_lookup_1 _ _ _ _ Hparks Hi).
        apply is_park_inv in Hpark as (d & ? & ? & ? & ? & ? & -> & _ & _ & _ & _ & Ht & _).
        cbn. by rewrite Ht.
    + right. split; [|done]. by apply last_with_reference_None.
  - intros q ref _ _ Hnone p (r & ref' & Hr & Href & Er & ->)%Hrow.
    unfold spec_record. rewrite Er.
    rewrite (proj1 (park_record_fields _ _ _ _ _)).
    intros [= ->]. by apply (Hnone r).
Qed.

Lemma load_parks_from_csv_merge_witness :
  Forall (fun p => reference_of p <> Some "CN-0100"%string)
    (all_parks (fst (load_parks_from_csv (Ok sample_rows) (sample_app None)))).
Proof.
  assert (Forall is_park (all_parks (sample_app None))) as Hparks
    by repeat constructor.
  apply Forall_forall.
  eapply (proj2 (load_parks_from_csv_merge (sample_app None) sample_rows Hparks)
            (park_record "CN-0100" "Great Wall" ["CN-BJ"; "CN-HE"] (VBool false) VNone)).
  - apply list_elem_of_lookup. exists 1%nat. reflexivity.
  - vm_compute. reflexivity.
  - apply Forall_forall.
    repeat (constructor; [vm_compute; discriminate|]). constructor.
Defined.

Lemma spec_record_reference (old : list value) (r : row) :
  reference_of (spec_record old r) = Some (row_reference r).
Proof. unfold spec_record. exact (proj1 (park_record_fields _ _ _ _ _)). Qed.

Lemma spec_import_lookup (old : list value) (rows : list row) (i : nat) :
  spec_import old rows !! i =
    spec_record old <$> filter (fun r => row_complete r) rows !! i.
Proof. unfold spec_import. apply list_lookup_fmap. Qed.

(** C8, as the code has it.  The references of the new catalog are those
    of the rows that give a record, in order: when these are pairwise
    distinct, no two records of the new catalog share a reference. *)
Theorem load_parks_from_csv_references (st : PotaLogbookApp) (rows : list row) :
  Forall is_park (all_parks st) ->
  let new_list := all_parks (fst (load_parks_from_csv (Ok rows) st)) in
  reference_of <$> new_list =
    Some <$> (row_reference <$> filter (fun r => row_complete r) rows) /\
  (NoDup (row_reference <$> filter (fun r => row_complete r) rows) ->
   forall i j p q,
     new_list !! i = Some p -> new_list !! j = Some q ->
     reference_of p = reference_of q -> i = j).
Proof.
  intros Hparks new_list. subst new_list.
  rewrite load_parks_from_csv_spec by done. cbn [fst set_all_parks all_parks].
  split.
  - unfold spec_import. rewrite <- !list_fmap_compose.
    apply list_fmap_ext. intros _ r _. apply spec_record_reference.
  - intros Hnodup i j p q. rewrite !spec_import_lookup.
    intros (ri & Hi & ->)%fmap_Some (rj & Hj & ->)%fmap_Some.
    rewrite !spec_record_reference. intros [= Heq].
    apply (NoDup_lookup (row_reference <$> filter (fun r => row_complete r) rows)
             i j (row_reference ri) Hnodup).
    + rewrite list_lookup_fmap, Hi. done.
    + rewrite list_lookup_fmap, Hj, Heq. done.
Qed.

Lemma load_parks_from_csv_references_witness :
  reference_of <$>
    all_parks (fst (load_parks_from_csv (Ok sample_rows) (init_state ∅))) =
  [Some "CN-0012"%string; Some "CN-0020"%string].
Proof.
  rewrite (proj1 (load_parks_from_csv_references (init_state ∅) sample_rows
                    (Forall_nil_2 _))).
  vm_compute. reflexivity.
Defined.

(** C8, as it is stated, fails: two rows with one reference give two
    records with that reference. *)
Lemma load_parks_from_csv_duplicate_reference :
  all_parks (fst (load_parks_from_csv (Ok two_gates) (init_state ∅))) =
    [park_record "CN-0001" "North Gate" ["CN-BJ"] (VBool false) VNone;
     park_record "CN-0001" "South Gate" ["CN-BJ"] (VBool false) VNone] /\
  reference_of (park_record "CN-0001" "North Gate" ["CN-BJ"] (VBool false) VNone) =
  reference_of (park_record "CN-0001" "South Gate" ["CN-BJ"] (VBool false) VNone).
Proof. split; vm_compute; reflexivity. Qed.

(** ** The catalog across activations *)

Lemma filter_parks_all_parks (st : PotaLogbookApp) :
  all_parks (fst (filter_parks st)) = all_parks st.
Proof.
  unfold filter_parks, ParkTableModel_update_data, save_config,
    update_activation_buttons.
  unfold bind, gets, lift, modify.
  destruct (py_setitem (config st) "last_province_code" _); [|done].
  cbn [set_config write_json all_parks config province_combo].
  destruct (select_parks (province_combo st) (all_parks st)); [|done].
  destruct (sort_source_rows _); [|done].
  cbn [update_data park_table_model].
  by destruct (update_activation_buttons_rows _).
Qed.

(** Whether or not the refresh that follows succeeds, an activation
    changes the catalog at one place at most. *)
Lemma prompt_activation_all_parks (st : PotaLogbookApp)
    (dlg : option string) (park_ref : string) :
  Forall is_park (all_parks st) ->
  all_parks (fst (prompt_activation dlg park_ref st)) =
    match dlg,
          list_find (fun p => reference_of p = Some park_ref) (all_parks st)
    with
    | Some date, Some (i, p) => <[i := activated_on date p]> (all_parks st)
    | _, _ => all_parks st
    end.
Proof.
  intros Hparks.
  unfold prompt_activation, bind at 1 2, gets at 1, lift at 1.
  rewrite find_park_parks by done.
  destruct (list_find _ (all_parks st)) as [[i p]|] eqn:Hfind;
    cbn [fmap option_fmap option_map prod_map fst snd id];
    [|by destruct dlg].
  pose proof Hfind as (Hi & _ & _)%list_find_Some.
  assert (is_park p) as Hp by exact (Forall_lookup_1 _ _ _ _ Hparks Hi).
  rewrite is_park_truthy by done. cbn [negb].
  pose proof Hp as (d & ? & name & ? & ? & ? & -> & _ & Hn & _)%is_park_inv.
  unfold bind at 1, lift at 1. cbn [py_getitem]. rewrite Hn.
  destruct dlg as [date|]; [|done].
  unfold bind at 1, lift at 1. cbn [py_setitem].
  unfold bind at 1, lift at 1.
  unfold bind at 1, modify at 1.
  unfold bind at 1, save_parks_to_json, bind at 1, gets at 1, modify at 1.
  set (st1 := write_json _ _ _).
  unfold bind at 1. pose proof (filter_parks_all_parks st1) as Hf.
  destruct (filter_parks st1) as [st2 [[]|e]]; cbn [fst] in Hf;
    unfold modify; cbn [fst emit all_parks]; by rewrite Hf.
Qed.

Lemma prompt_activation_parks (st : PotaLogbookApp)
    (dlg : option string) (park_ref : string) :
  Forall is_park (all_parks st) ->
  Forall is_park (all_parks (fst (prompt_activation dlg park_ref st))).
Proof.
  intros Hparks. rewrite prompt_activation_all_parks by done.
  destruct dlg as [date|]; [|done].
  destruct (list_find _ _) as [[i p]|] eqn:Hfind; [|done].
  apply list_find_Some in Hfind as (Hi & _ & _).
  apply Forall_insert; [done|]. apply is_park_activated_on.
  exact (Forall_lookup_1 _ _ _ _ Hparks Hi).
Qed.

(** ** The activation time and the activated flag *)

Lemma consistent_park_record (ref name : string) (provinces : list string)
    (a t : value) :
  consistent (park_record ref name provinces a t) <->
  (a = VBool true <-> t <> VNone).
Proof.
  unfold consistent.
  destruct (park_record_fields ref name provinces a t)
    as (_ & _ & _ & -> & ->).
  split; intros H; split.
  - intros ->. destruct (proj1 H eq_refl) as (t' & [= <-] & Hne). done.
  - intros Hne. assert (Some a = Some (VBool true)) as [= ->]; [|done].
    apply H. eauto.
  - intros [= ->]. exists t. split; [done|]. by apply H.
  - intros (t' & [= <-] & Hne). f_equal. by apply H.
Qed.

Lemma consistent_activated_on (date : string) (p : value) :
  is_park p -> consistent (activated_on date p).
Proof.
  intros Hp. destruct (activated_on_fields date p Hp) as (Ha & Ht & _).
  unfold consistent. rewrite Ha, Ht. split; [|done].
  intros _. by exists (VStr date).
Qed.

(** ** Merging the rows with a catalog of park records *)

Section Merge.

Variable old : list value.
Hypothesis Hold : Forall is_park old.

Lemma spec_record_park (r : row) : is_park (spec_record old r).
Proof.
  unfold spec_record.
  set (prev := last_with_reference (row_reference r) old).
  assert (exists b t, default (VBool false) (prev ≫= field "activated") = VBool b /\
            default VNone (prev ≫= field "activation_time") = t /\
            (t = VNone \/ exists s, t = VStr s)) as (b & t & -> & -> & Ht).
  { destruct prev as [q|] eqn:E; subst prev; [|by exists false, VNone; eauto].
    apply last_with_reference_Some in E as (i & Hi & _).
    assert (is_park q) as Hq by exact (Forall_lookup_1 _ _ _ _ Hold Hi).
    apply is_park_inv in Hq
      as (d & ? & ? & ? & b & t & -> & _ & _ & _ & Ha & Ht & _ & Hshape).
    exists b, t. cbn. by rewrite Ha, Ht. }
  unfold park_record.
  eapply (is_park_intro _ _ _ _ b t); [by simplify_map_eq.. | | done].
  clear. induction (spec_provinces (row_desc r)); [done|]. by cbn.
Qed.

Lemma spec_import_parks (rows : list row) :
  Forall is_park (spec_import old rows).
Proof.
  apply Forall_forall.
  intros p (r & _ & _ & ->)%spec_import_elem. apply spec_record_park.
Qed.

Lemma spec_record_consistent (r : row) :
  Forall consistent old -> consistent (spec_record old r).
Proof.
  intros Hcons. unfold spec_record. apply consistent_park_record.
  destruct (last_with_reference (row_reference r) old) as [q|] eqn:E.
  - apply last_with_reference_Some in E as (i & Hi & _).
    assert (is_park q) as Hq by exact (Forall_lookup_1 _ _ _ _ Hold Hi).
    assert (consistent q) as Hc by exact (Forall_lookup_1 _ _ _ _ Hcons Hi).
    apply is_park_inv in Hq
      as (d & ? & ? & ? & b & t & -> & _ & _ & _ & Ha & Ht & _).
    unfold consistent in Hc. cbn in Hc |- *. rewrite Ha, Ht in Hc |- *. cbn.
    split.
    + intros Hb. rewrite Hb in Hc. destruct (proj1 Hc eq_refl) as (t' & [= <-] & Hne).
      done.
    + intros Hne. assert (Some (VBool b) = Some (VBool true)) as [= ->]; [|done].
      apply Hc. eauto.
  - cbn. split; [done|]. by intros [].
Qed.

Lemma spec_import_consistent (rows : list row) :
  Forall consistent old -> Forall consistent (spec_import old rows).
Proof.
  intros Hcons. apply Forall_forall.
  intros p (r & _ & _ & ->)%spec_import_elem. by apply spec_record_consistent.
Qed.

Lemma spec_import_matches (rows : list row) :
  matches_rows rows (spec_import old rows).
Proof.
  unfold matches_rows, spec_import.
  apply Forall2_fmap_r, Forall_Forall2_diag, Forall_forall. intros r _.
  split; [apply spec_record_park|]. unfold spec_record. eauto.
Qed.

(** Importing over the result of an import of the same rows changes
    nothing, whatever the references. *)
Lemma spec_import_twice (rows : list row) :
  spec_import (spec_import old rows) rows = spec_import old rows.
Proof.
  transitivity (spec_record old <$> filter (fun r => row_complete r) rows);
    [|done].
  unfold spec_import at 1. apply list_fmap_ext.
  intros _ r [Hc Hr]%list_elem_of_lookup_2%list_elem_of_filter.
  unfold spec_record.
  set (ref := row_reference r).
  set (prev := last_with_reference ref old).
  destruct (last_with_reference ref (spec_import old rows)) as [q|] eqn:E.
  - apply last_with_reference_Some in E as (j & Hj & Hq & _).
    apply list_elem_of_lookup_2, spec_import_elem in Hj as (r' & _ & _ & ->).
    rewrite spec_record_reference in Hq. injection Hq as Hq.
    unfold spec_record. rewrite Hq. fold ref prev. cbn [mbind option_bind].
    by destruct (park_record_fields ref (row_name r') (spec_provinces (row_desc r'))
                   (default (VBool false) (prev ≫= field "activated"))
                   (default VNone (prev ≫= field "activation_time")))
      as (_ & _ & _ & -> & ->).
  - exfalso.
    eapply (last_with_reference_None _ _ E (spec_record old r));
      [|apply spec_record_reference].
    unfold spec_import. apply list_elem_of_fmap. exists r. split; [done|].
    by apply list_elem_of_filter.
Qed.

End Merge.

Lemma prompt_activation_consistent (st : PotaLogbookApp)
    (dlg : option string) (park_ref : string) :
  Forall is_park (all_parks st) -> Forall consistent (all_parks st) ->
  Forall consistent (all_parks (fst (prompt_activation dlg park_ref st))).
Proof.
  intros Hparks Hcons. rewrite prompt_activation_all_parks by done.
  destruct dlg as [date|]; [|done].
  destruct (list_find _ _) as [[i p]|] eqn:Hfind; [|done].
  apply list_find_Some in Hfind as (Hi & _ & _).
  apply Forall_insert; [done|]. apply consistent_activated_on.
  exact (Forall_lookup_1 _ _ _ _ Hparks Hi).
Qed.

(** C7. On a catalog of park records where [activated] is true exactly
    when [activation_time] is not null, this still holds after an
    activation request, however its dialog ends, and after an import;
    both also leave a catalog of park records, so the property holds
    along any further run of activations and imports. *)
Theorem activated_iff_activation_time (st : PotaLogbookApp) :
  Forall is_park (all_parks st) -> Forall consistent (all_parks st) ->
  (forall dlg park_ref,
     Forall is_park (all_parks (fst (prompt_activation dlg park_ref st))) /\
     Forall consistent (all_parks (fst (prompt_activation dlg park_ref st)))) /\
  (forall rows,
     Forall is_park (all_parks (fst (load_parks_from_csv (Ok rows) st))) /\
     Forall consistent (all_parks (fst (load_parks_from_csv (Ok rows) st)))).
Proof.
  intros Hparks Hcons. split.
  - intros dlg park_ref.
    split; [by apply prompt_activation_parks | by apply prompt_activation_consistent].
  - intros rows. rewrite load_parks_from_csv_spec by done.
    cbn [fst set_all_parks all_parks].
    split; [by apply spec_import_parks | by apply spec_import_consistent].
Qed.

Lemma activated_iff_activation_time_witness :
  Forall consistent
    (all_parks (fst (prompt_activation (Some "2024-05-01"%string) "CN-0012"
                       (sample_app None)))).
Proof.
  apply activated_iff_activation_time.
  - repeat constructor.
  - repeat (constructor;
            [apply (proj2 (consistent_park_record _ _ _ _ _)); by split|]).
    constructor.
Defined.

Lemma import_csv_action_all_parks (st : PotaLogbookApp)
    (chosen : option (result (list row))) :
  Forall is_park (all_parks st) ->
  all_parks (fst (import_csv_action chosen st)) =
    match chosen with
    | Some (Ok rows) => spec_import (all_parks st) rows
    | _ => all_parks st
    end.
Proof.
  intros Hparks. destruct chosen as [[rows|e]|]; [| |done]; cbn [import_csv_action].
  - unfold bind at 1. rewrite load_parks_from_csv_spec by done.
    unfold bind at 1, save_parks_to_json, bind at 1, gets at 1, modify at 1.
    set (st1 := write_json _ _ _). unfold bind at 1.
    pose proof (filter_parks_all_parks st1) as Hf.
    destruct (filter_parks st1) as [st2 [[]|e]]; cbn [fst] in Hf;
      unfold modify; cbn [fst emit all_parks]; by rewrite Hf.
  - unfold bind at 1.
    destruct (index_by_reference_parks (all_parks st) ∅ Hparks)
      as (existing & Hidx & _).
    unfold load_parks_from_csv, bind, gets, lift. by rewrite Hidx.
Qed.

(** X14. Started on a catalog of consistent park records (the empty
    catalog is one), every session leaves such a catalog. *)
Lemma session_consistent (acts : list action) (st : PotaLogbookApp) :
  Forall is_park (all_parks st) -> Forall consistent (all_parks st) ->
  Forall is_park (all_parks (session acts st)) /\
  Forall consistent (all_parks (session acts st)).
Proof.
  revert st. induction acts as [|a acts IH]; intros st Hparks Hcons; [done|].
  cbn [session fold_left]. apply IH; destruct a as [chosen|ref dlg|code];
    cbn [perform].
  - rewrite import_csv_action_all_parks by done.
    destruct chosen as [[rows|]|]; [|done..]. by apply spec_import_parks.
  - by apply prompt_activation_parks.
  - by rewrite filter_parks_all_parks.
  - rewrite import_csv_action_all_parks by done.
    destruct chosen as [[rows|]|]; [|done..]. by apply spec_import_consistent.
  - by apply prompt_activation_consistent.
  - by rewrite filter_parks_all_parks.
Qed.

(** ** Importing the same CSV again *)

Lemma activated_on_park_record (date ref name : string)
    (provinces : list string) (a t : value) :
  activated_on date (park_record ref name provinces a t) =
    park_record ref name provinces (VBool true) (VStr date).
Proof.
  unfold park_record. cbn [activated_on]. by f_equal.
Qed.

Lemma prompt_activation_matches (rows : list row) (st : PotaLogbookApp)
    (dlg : option string) (park_ref : string) :
  matches_rows rows (all_parks st) ->
  matches_rows rows (all_parks (fst (prompt_activation dlg park_ref st))).
Proof.
  intros Hm.
  assert (Forall is_park (all_parks st)) as Hparks.
  { eapply Forall2_Forall_r; [exact Hm|]. apply Forall_forall.
    by intros r _ p [Hp _]. }
  rewrite prompt_activation_all_parks by done.
  destruct dlg as [date|]; [|done].
  destruct (list_find _ _) as [[i p]|] eqn:Hfind; [|done].
  apply list_find_Some in Hfind as (Hi & _ & _).
  destruct (Forall2_lookup_r _ _ _ _ _ Hm Hi) as (r & Hr & Hp & a & t & ->).
  unfold matches_rows. rewrite <- (list_insert_id _ i r Hr).
  apply Forall2_insert; [exact Hm|].
  split; [by apply is_park_activated_on|].
  rewrite activated_on_park_record. eauto.
Qed.

Lemma activations_matches (rows : list row)
    (acts : list (string * option string)) (st : PotaLogbookApp) :
  matches_rows rows (all_parks st) ->
  matches_rows rows (all_parks (activations acts st)).
Proof.
  revert st. induction acts as [|[ref dlg] acts IH]; intros st Hm; [done|].
  cbn [activations fold_left fst snd]. apply IH.
  by apply prompt_activation_matches.
Qed.

Lemma last_with_reference_only (ref : string) (parks : list value)
    (i : nat) (p : value) :
  parks !! i = Some p -> reference_of p = Some ref ->
  (forall j q, parks !! j = Some q -> reference_of q = Some ref -> j = i) ->
  last_with_reference ref parks = Some p.
Proof.
  intros Hi Hp Honly.
  destruct (last_with_reference ref parks) as [q|] eqn:E.
  - apply last_with_reference_Some in E as (j & Hj & Hq & _).
    rewrite (Honly j q Hj Hq) in Hj. congruence.
  - exfalso. eapply last_with_reference_None; [exact E| |exact Hp].
    by eapply list_elem_of_lookup_2.
Qed.

(** On a catalog that holds the records of the rows, with references that
    occur once, the import gives the catalog back. *)
Lemma spec_import_fixed (rows : list row) (parks : list value) :
  NoDup (row_reference <$> filter (fun r => row_complete r) rows) ->
  matches_rows rows parks ->
  spec_import parks rows = parks.
Proof.
  intros Hnodup Hm. apply list_eq_Forall2. unfold spec_import.
  apply Forall2_fmap_l.
  apply Forall2_same_length_lookup. split; [by eapply Forall2_length|].
  intros i r p Hr Hp.
  destruct (Forall2_lookup_lr _ _ _ _ _ _ Hm Hr Hp) as (_ & a & t & ->).
  unfold compose, spec_record.
  rewrite (last_with_reference_only (row_reference r) parks i
             (park_record (row_reference r) (row_name r)
                (spec_provinces (row_desc r)) a t)); [|done|..].
  - cbn [mbind option_bind].
    by destruct (park_record_fields (row_reference r) (row_name r)
                   (spec_provinces (row_desc r)) a t) as (_ & _ & _ & -> & ->).
  - exact (proj1 (park_record_fields _ _ _ _ _)).
  - intros j q Hq Href.
    destruct (Forall2_lookup_r _ _ _ _ _ Hm Hq) as (rj & Hrj & _ & a' & t' & ->).
    rewrite (proj1 (park_record_fields _ _ _ _ _)) in Href.
    injection Href as Href.
    eapply (NoDup_lookup _ j i (row_reference r) Hnodup).
    + by rewrite list_lookup_fmap, Hrj, <- Href.
    + by rewrite list_lookup_fmap, Hr.
Qed.

(** C5, as the code has it.  Importing the same CSV a second time
    changes nothing: the state is the one the first import left and the
    count is the same.  When the rows that give a record have pairwise
    distinct references, a second import that follows any run of
    activation requests gives back the catalog as those requests left
    it, so every activation recorded in between is kept. *)
Theorem load_parks_from_csv_again (st : PotaLogbookApp) (rows : list row) :
  Forall is_park (all_parks st) ->
  let st1 := fst (load_parks_from_csv (Ok rows) st) in
  load_parks_from_csv (Ok rows) st1 = (st1, snd (load_parks_from_csv (Ok rows) st)) /\
  (NoDup (row_reference <$> filter (fun r => row_complete r) rows) ->
   forall acts,
     let st2 := activations acts st1 in
     all_parks (fst (load_parks_from_csv (Ok rows) st2)) = all_parks st2).
Proof.
  intros Hparks st1. subst st1.
  rewrite (load_parks_from_csv_spec st) by done. cbn [fst snd]. split.
  - rewrite load_parks_from_csv_spec by by apply spec_import_parks.
    cbn [set_all_parks all_parks]. rewrite spec_import_twice by done.
    reflexivity.
  - intros Hnodup acts. set (st2 := activations acts _).
    assert (matches_rows rows (all_parks st2)) as Hm.
    { apply activations_matches. by apply spec_import_matches. }
    rewrite load_parks_from_csv_spec.
    + cbn [fst set_all_parks all_parks]. by apply spec_import_fixed.
    + eapply Forall2_Forall_r; [exact Hm|]. apply Forall_forall.
      by intros r _ p [Hp _].
Qed.

Lemma load_parks_from_csv_again_witness :
  all_parks
    (fst (load_parks_from_csv (Ok sample_rows)
            (activations [("CN-0012"%string, Some "2024-05-01"%string)]
               (fst (load_parks_from_csv (Ok sample_rows) (init_state ∅)))))) =
  [park_record "CN-0012" "Test Park" ["CN-AH"] (VBool true) (VStr "2024-05-01");
   park_record "CN-0020" "New Park" ["CN-BJ"; "CN-HE"] (VBool false) VNone].
Proof.
  rewrite (proj2 (load_parks_from_csv_again (init_state ∅) sample_rows
                    (Forall_nil_2 _))).
  - vm_compute. reflexivity.
  - apply (bool_decide_unpack _). vm_compute. exact I.
Defined.

(** C5, as it is stated, fails on a CSV with a reference on two rows: the
    activation goes to the first park with the reference, the next import
    reads the state of the last one, and the activation is gone. *)
Lemma load_parks_from_csv_again_loses_activation :
  snd (prompt_activation (Some "2024-05-01"%string) "CN-0001"
         (fst (load_parks_from_csv (Ok two_gates) (init_state ∅)))) = Ok tt /\
  all_parks
    (activations [("CN-0001"%string, Some "2024-05-01"%string)]
       (fst (load_parks_from_csv (Ok two_gates) (init_state ∅)))) =
    [park_record "CN-0001" "North Gate" ["CN-BJ"] (VBool true) (VStr "2024-05-01");
     park_record "CN-0001" "South Gate" ["CN-BJ"] (VBool false) VNone] /\
  all_parks
    (fst (load_parks_from_csv (Ok two_gates)
            (activations [("CN-0001"%string, Some "2024-05-01"%string)]
               (fst (load_parks_from_csv (Ok two_gates) (init_state ∅)))))) =
    [park_record "CN-0001" "North Gate" ["CN-BJ"] (VBool false) VNone;
     park_record "CN-0001" "South Gate" ["CN-BJ"] (VBool false) VNone].
Proof. split_and!; vm_compute; reflexivity. Qed.

End CsvImport.

(* ===================================================================== *)
(** * The sort key on every reference *)
(* ===================================================================== *)

Section SortKeyRange.

Lemma matches_Plus_Lit_head (c : ascii) (s : string) (h : Re.hit) :
  h ∈ Re.matches (Re.Plus (Re.Lit c)) s -> exists s', s = String c s'.
Proof.
  destruct s as [|c' s']; cbn.
  - intros H. by apply elem_of_nil in H.
  - destruct (Ascii.eqb_spec c c') as [<-|Hne]; [eauto|].
    intros (h1 & _ & H)%list_elem_of_bind. by apply elem_of_nil in H.
Qed.

Lemma matches_Plus_Lit_one (c : ascii) (s' : string) :
  Re.Hit (String c EmptyString) s' None
    ∈ Re.matches (Re.Plus (Re.Lit c)) (String c s').
Proof.
  cbn. rewrite Ascii.eqb_refl. cbn. rewrite app_nil_r.
  apply elem_of_app. right. apply list_elem_of_here.
Qed.

Lemma matches_park_number_pattern (t : string) :
  (exists h, h ∈ Re.matches park_number_pattern t) <->
  exists post, t = trigger post.
Proof.
  unfold park_number_pattern, trigger. split.
  - intros (h & (h1 & h2 & (s1 & -> & ->)%matches_Lit
                 & (h3 & H3 & ->)%matches_Group & _)%matches_Seq).
    apply matches_Seq in H3 as (h4 & h5 & (s2 & Hs2 & ->)%matches_Lit & H5 & _).
    cbn [Re.rest] in Hs2, H5. subst s1.
    apply matches_Plus_Lit_head in H5 as (s3 & ->). eauto.
  - intros (post & ->). eexists.
    apply matches_Seq. eexists _, _. split_and!; [|  |reflexivity].
    + apply matches_Lit. eauto.
    + apply matches_Group. eexists. split; [|reflexivity].
      apply matches_Seq. eexists _, _. split_and!; [| |reflexivity].
      * apply matches_Lit. eauto.
      * apply matches_Plus_Lit_one.
Qed.

Lemma search_park_number_pattern_Some (s : string) :
  is_Some (Re.search park_number_pattern s) <->
  exists pre post, s = pre +:+ trigger post.
Proof.
  induction s as [|c s IH]; cbn [Re.search].
  - destruct (Re.matches park_number_pattern EmptyString) as [|h l] eqn:E.
    + split; [by intros [? ?]|]. intros (pre & post & H). by destruct pre.
    + assert (exists post, EmptyString = trigger post) as (post & ?); [|done].
      apply matches_park_number_pattern. exists h. rewrite E. apply list_elem_of_here.
  - destruct (Re.matches park_number_pattern (String c s)) as [|h l] eqn:E.
    + rewrite IH. split.
      * intros (pre & post & ->). by exists (String c pre), post.
      * intros (pre & post & H). destruct pre as [|c' pre].
        -- assert (exists h, h ∈ Re.matches park_number_pattern (String c s))
             as (h & Hh); [|by rewrite E in Hh; apply elem_of_nil in Hh].
           apply matches_park_number_pattern. by exists post.
        -- cbn in H. injection H as -> ->. eauto.
    + split; [|by eexists]. intros _.
      assert (exists post, String c s = trigger post) as (post & ->).
      { apply matches_park_number_pattern. exists h. rewrite E. apply list_elem_of_here. }
      by exists EmptyString, post.
Qed.

(** X1. The key of a reference is 0, except that the call raises
    [ValueError] exactly when the reference contains a dash followed by a
    backslash and a letter d. *)
Theorem get_park_number_int_cases (reference : string) :
  (get_park_number_int reference = Raise ValueError <->
   exists pre post,
     reference = pre +:+ String "-" (String backslash (String "d" post))) /\
  (get_park_number_int reference = Ok 0 <->
   ~ exists pre post,
       reference = pre +:+ String "-" (String backslash (String "d" post))).
Proof.
  pose proof (search_park_number_pattern_Some reference) as Hsome.
  unfold trigger in Hsome. unfold get_park_number_int.
  destruct (search_park_number_pattern reference) as [E|[t E]]; rewrite E in *;
    cbn [int_of_group1].
  - assert (~ exists pre post, reference =
              pre +:+ String "-" (String backslash (String "d" post))) as Hno.
    { intros H. apply Hsome in H as [? [=]]. }
    split; split; (done || (intros H; by destruct Hno)).
  - rewrite py_int_backslash.
    assert (exists pre post, reference =
              pre +:+ String "-" (String backslash (String "d" post))) as Hyes
      by (apply Hsome; by eexists).
    split; split; (done || (intros Hno; by destruct Hno)).
Qed.

End SortKeyRange.

(* ===================================================================== *)
(** * The sort keys under the proxy *)
(* ===================================================================== *)

Section ProxySort.

(** The sort key of a park record can be read exactly when its reference
    holds no dash followed by a backslash and a letter d. *)
Lemma sort_key_ok_reference (p : value) (ref : string) :
  is_park p -> reference_of p = Some ref ->
  sort_key_ok p <-> ~ exists pre post, ref = pre +:+ trigger post.
Proof.
  intros (d & ref' & ? & ? & ? & ? & -> & Hr & _)%is_park_inv Href.
  unfold reference_of in Href. cbn in Href. rewrite Hr in Href.
  cbn in Href. injection Href as ->.
  unfold sort_key_ok, ParkTableModel_data_UserRole. cbn [py_getitem].
  rewrite Hr. cbn [rbind].
  pose proof (search_park_number_pattern_Some ref) as Hsome.
  unfold get_park_number_int.
  destruct (search_park_number_pattern ref) as [E|[t E]]; rewrite E in *;
    cbn [int_of_group1].
  - split; [|done]. intros _ H. apply Hsome in H as [? [=]].
  - rewrite py_int_backslash. split; [intros []|].
    intros Hno. destruct Hno. apply Hsome. by eexists.
Qed.

(** X16. With "all provinces" selected on a catalog of two or more park
    records, one of which has a reference that holds a dash followed by a
    backslash and a letter d: [filter_parks] writes the configuration file
    and hands the catalog to the table, and the sort the proxy then runs
    ends the process with the [ValueError] of [get_park_number_int]. *)
Theorem filter_parks_sort_key_error (st : PotaLogbookApp) (p : value)
    (pre post : string) :
  Forall is_park (all_parks st) -> is_dict (config st) ->
  province_combo st = None ->
  (2 <= length (all_parks st))%nat ->
  p ∈ all_parks st -> reference_of p = Some (pre +:+ trigger post) ->
  snd (filter_parks st) = Raise (QtFatal ValueError) /\
  park_table_model (fst (filter_parks st)) = all_parks st /\
  all_parks (fst (filter_parks st)) = all_parks st /\
  exists cfg,
    files (fst (filter_parks st)) !! CONFIG_FILE = Some (Json (VDict cfg)) /\
    cfg !! "last_province_code" = Some VNone.
Proof.
  intros Hparks Hcfg Hcombo Hlen Hin Href.
  destruct (filter_parks_parks st Hparks Hcfg)
    as (cfg & shown & Hset & Hsel & Hrows & Hf).
  rewrite Hcombo in Hsel, Hset. cbn [select_parks] in Hsel. injection Hsel as <-.
  rewrite Hf. cbn [fst snd park_table_model all_parks files update_data
                   write_json set_config].
  assert (~ sortable (all_parks st)) as Hno.
  { unfold sortable. intros [H|H]%orb_prop_elim.
    - apply Is_true_true, Nat.ltb_lt in H. lia.
    - apply forallb_True in H. eapply Forall_forall in H; [|exact Hin].
      assert (is_park p) as Hp by (by eapply Forall_forall in Hparks).
      apply (sort_key_ok_reference p _ Hp Href) in H. apply H. eauto. }
  split_and!; [by apply sort_source_rows_parks | done | done |].
  destruct (config st) as [| | | | |d]; try done.
  cbn in Hset. injection Hset as <-.
  eexists. split; apply lookup_insert_eq.
Qed.

Lemma filter_parks_sort_key_error_witness :
  snd (filter_parks odd_app) = Raise (QtFatal ValueError) /\
  length (park_table_model (fst (filter_parks odd_app))) = 2%nat.
Proof.
  destruct (filter_parks_sort_key_error odd_app
              (park_record ("CN" +:+ trigger "1") "Odd Park" ["CN-AH"]
                 (VBool false) VNone) "CN" "1")
    as (Hout & Hshown & _).
  - repeat constructor.
  - exact I.
  - reflexivity.
  - vm_compute. lia.
  - apply list_elem_of_lookup. exists 1%nat. reflexivity.
  - vm_compute. reflexivity.
  - split; [exact Hout|]. rewrite Hshown. reflexivity.
Defined.

End ProxySort.

(* ===================================================================== *)
(** * The catalog on disk *)
(* ===================================================================== *)

Section Persistence.

Lemma filter_parks_files_parks (st : PotaLogbookApp) :
  files (fst (filter_parks st)) !! PARKS_DATA_FILE = files st !! PARKS_DATA_FILE.
Proof.
  unfold filter_parks, ParkTableModel_update_data, save_config,
    update_activation_buttons.
  unfold bind, gets, lift, modify.
  destruct (py_setitem (config st) "last_province_code" _); [|done].
  cbn [set_config write_json all_parks config province_combo files].
  assert (<[CONFIG_FILE := Json a]> (files st) !! PARKS_DATA_FILE
          = files st !! PARKS_DATA_FILE) as Hne by by apply lookup_insert_ne.
  destruct (select_parks (province_combo st) (all_parks st)); [|done].
  destruct (sort_source_rows _); [|done].
  cbn [update_data park_table_model files].
  by destruct (update_activation_buttons_rows _).
Qed.

(** The refresh and the message that end a handler touch neither the
    catalog nor its file. *)
Lemma refresh_keeps (e : event) (st : PotaLogbookApp) :
  all_parks (fst ((run filter_parks; modify (emit e)) st)) = all_parks st /\
  files (fst ((run filter_parks; modify (emit e)) st)) !! PARKS_DATA_FILE
    = files st !! PARKS_DATA_FILE.
Proof.
  pose proof (filter_parks_all_parks st) as Ha.
  pose proof (filter_parks_files_parks st) as Hf.
  unfold bind, modify.
  by destruct (filter_parks st) as [st2 [[]|e']].
Qed.

Lemma saved_write (st : PotaLogbookApp) (l : list value) :
  saved (write_json PARKS_DATA_FILE (VList l) (set_all_parks l st)).
Proof. unfold saved. cbn. apply lookup_insert_eq. Qed.

Lemma saved_keeps (st st' : PotaLogbookApp) :
  all_parks st' = all_parks st ->
  files st' !! PARKS_DATA_FILE = files st !! PARKS_DATA_FILE ->
  saved st -> saved st'.
Proof. unfold saved. by intros -> ->. Qed.

Lemma prompt_activation_saved (st : PotaLogbookApp) (dlg : option string)
    (park_ref : string) :
  saved st -> saved (fst (prompt_activation dlg park_ref st)).
Proof.
  intros Hs. unfold prompt_activation, save_parks_to_json.
  unfold bind at 1 2, gets at 1, lift at 1.
  destruct (find_park park_ref (all_parks st) 0) as [[[i park]|]|e]; [|done..].
  destruct (truthy park); cbn [negb]; [|done].
  unfold bind at 1, lift at 1.
  destruct (py_getitem park "name"); [|done].
  destruct dlg as [date|]; [|done].
  unfold bind at 1, lift at 1.
  destruct (py_setitem park "activated" (VBool true)) as [park1|]; [|done].
  unfold bind at 1, lift at 1.
  destruct (py_setitem park1 "activation_time" (VStr date)) as [park2|]; [|done].
  unfold bind at 1, modify at 1.
  unfold bind at 1. unfold bind at 1, gets at 1, modify at 1.
  set (st1 := write_json _ _ _).
  destruct (refresh_keeps (InfoActivated park_ref date) st1) as [Ha Hf].
  eapply saved_keeps; [exact Ha | exact Hf |]. apply saved_write.
Qed.

Lemma import_csv_action_saved (st : PotaLogbookApp)
    (chosen : option (result (list row))) :
  saved st -> saved (fst (import_csv_action chosen st)).
Proof.
  intros Hs. destruct chosen as [reader|]; [|done]. cbn [import_csv_action].
  unfold load_parks_from_csv, save_parks_to_json.
  unfold bind at 1 2 3, gets at 1, lift at 1.
  destruct (index_by_reference (all_parks st) ∅) as [existing|]; [|done].
  unfold bind at 1, lift at 1. destruct reader as [rows|]; [|done].
  destruct (fold_left (import_row existing) rows ([], 0%nat))
    as [new_list processed_count].
  unfold bind at 1, modify at 1, ret.
  unfold bind at 1. unfold bind at 1, gets at 1, modify at 1.
  set (st1 := write_json _ _ _).
  destruct (refresh_keeps (InfoImported processed_count) st1) as [Ha Hf].
  eapply saved_keeps; [exact Ha | exact Hf |]. apply saved_write.
Qed.

(** X2. If the catalog file holds the catalog, it still does after any
    run of imports, activation requests and province selections, however
    each of them ends: a handler that changes the catalog writes it before
    anything else can fail. *)
Theorem session_saved (acts : list action) (st : PotaLogbookApp) :
  saved st -> saved (session acts st).
Proof.
  revert st. induction acts as [|a acts IH]; intros st Hs; [done|].
  cbn [session fold_left]. apply IH. destruct a as [chosen|ref dlg|code];
    cbn [perform].
  - by apply import_csv_action_saved.
  - by apply prompt_activation_saved.
  - eapply saved_keeps; [apply filter_parks_all_parks
                        | apply filter_parks_files_parks | exact Hs].
Qed.

End Persistence.

(* ===================================================================== *)
(** * Start-up *)
(* ===================================================================== *)

Section StartUp.

Lemma restore_last_province_keeps (st : PotaLogbookApp) :
  all_parks (fst (restore_last_province st)) = all_parks st /\
  files (fst (restore_last_province st)) !! PARKS_DATA_FILE
    = files st !! PARKS_DATA_FILE.
Proof.
  cut (forall x, x = restore_last_province st ->
         all_parks (fst x) = all_parks st /\
         files (fst x) !! PARKS_DATA_FILE = files st !! PARKS_DATA_FILE);
    [by eauto|].
  intros x Hx. unfold restore_last_province in Hx.
  unfold bind at 1 2, gets at 1, lift at 1 in Hx.
  destruct (py_get (config st) "last_province_code" VNone) as [last|];
    [|by subst x].
  destruct (truthy last); [|by subst x].
  destruct last as [| | |c| |]; try by subst x.
  destruct (in_province_map c); [|by subst x].
  unfold bind, modify, qt_slot in Hx. subst x. cbn [fst].
  by rewrite filter_parks_all_parks, filter_parks_files_parks.
Qed.

(** X3. Started on a directory whose catalog file holds a JSON array, the
    window has that array as its catalog, whatever the rest of the start-up
    does. *)
Theorem PotaLogbookApp_init_catalog (fs : gmap string document) (l : list value) :
  fs !! PARKS_DATA_FILE = Some (Json (VList l)) ->
  all_parks (fst (PotaLogbookApp_init fs)) = l.
Proof.
  intros Hfs. unfold PotaLogbookApp_init. unfold bind at 1.
  rewrite (load_parks_from_json_array (init_state fs) l) by done.
  set (st1 := set_all_parks l (init_state fs)).
  destruct (restore_last_province_keeps st1) as [Ha _].
  pose proof (filter_parks_all_parks (fst (restore_last_province st1))) as Hf.
  unfold bind.
  destruct (restore_last_province st1) as [st2 [[]|e]]; cbn [fst] in *.
  - by rewrite Hf, Ha.
  - by rewrite Ha.
Qed.

Lemma PotaLogbookApp_init_catalog_witness :
  all_parks (fst (PotaLogbookApp_init (files (sample_saved None)))) = sample_parks.
Proof. apply PotaLogbookApp_init_catalog. reflexivity. Defined.

(** [filter_parks] on a catalog of park records, field by field. *)
Lemma filter_parks_result (st : PotaLogbookApp) :
  Forall is_park (all_parks st) -> is_dict (config st) ->
  exists d shown,
    config st = VDict d /\
    select_parks (province_combo st) (all_parks st) = Ok shown /\
    filter_parks st =
      (App (all_parks st)
           (VDict (<["last_province_code" := code_value (province_combo st)]> d))
           (province_combo st) shown
           (<[CONFIG_FILE :=
                Json (VDict (<["last_province_code" :=
                                 code_value (province_combo st)]> d))]> (files st))
           (events st ++
              [Wrote CONFIG_FILE
                 (VDict (<["last_province_code" :=
                             code_value (province_combo st)]> d))]),
       sort_source_rows shown).
Proof.
  intros Hparks Hcfg.
  destruct (filter_parks_parks st Hparks Hcfg)
    as (cfg & shown & Hset & Hsel & _ & Hrun).
  destruct (config st) as [| | | | |d] eqn:Ec; try done.
  cbn in Hset. injection Hset as <-.
  exists d, shown. split_and!; [done..|].
  rewrite Hrun. unfold update_data, write_json, set_config. by cbn.
Qed.

Lemma in_province_map_truthy (c : string) :
  in_province_map c = true -> truthy (VStr c) = true.
Proof.
  intros Hc. cbn. destruct (String.eqb_spec c "") as [->|]; [|done].
  by vm_compute in Hc.
Qed.

(** X4. The selection is kept across a restart.  On a catalog of park
    records that is on disk, with the selector on "all provinces" or on a
    key of the province table: after a [filter_parks] that showed rows the
    proxy can sort, a start-up on the files left behind succeeds, has the
    same selection and the same catalog, and shows the same rows. *)
Theorem PotaLogbookApp_init_selection (st : PotaLogbookApp) :
  Forall is_park (all_parks st) -> is_dict (config st) -> saved st ->
  from_option (fun c => in_province_map c = true) True (province_combo st) ->
  sortable (park_table_model (fst (filter_parks st))) ->
  snd (PotaLogbookApp_init (files (fst (filter_parks st)))) = Ok tt /\
  province_combo (fst (PotaLogbookApp_init (files (fst (filter_parks st)))))
    = province_combo st /\
  all_parks (fst (PotaLogbookApp_init (files (fst (filter_parks st)))))
    = all_parks st /\
  park_table_model (fst (PotaLogbookApp_init (files (fst (filter_parks st)))))
    = park_table_model (fst (filter_parks st)).
Proof.
  intros Hparks Hcfg Hsaved Hcode.
  destruct (filter_parks_result st Hparks Hcfg) as (d & shown & Ec & Hsel & ->).
  cbn [fst files park_table_model]. intros Hsort%sort_source_rows_ok.
  remember (province_combo st) as code eqn:Ecode.
  set (cfg := VDict (<["last_province_code" := code_value code]> d)).
  set (fs := <[CONFIG_FILE := Json cfg]> (files st)).
  assert (fs !! PARKS_DATA_FILE = Some (Json (VList (all_parks st)))) as Hfs.
  { unfold fs. by rewrite lookup_insert_ne. }
  assert (load_config fs = cfg) as Hload.
  { unfold load_config, fs. by rewrite lookup_insert_eq. }
  cut (forall w, w = PotaLogbookApp_init fs ->
         snd w = Ok tt /\ province_combo (fst w) = code /\
         all_parks (fst w) = all_parks st /\ park_table_model (fst w) = shown);
    [by eauto|].
  intros w Hw. unfold PotaLogbookApp_init in Hw. unfold bind at 1 in Hw.
  rewrite (load_parks_from_json_array (init_state fs) (all_parks st)) in Hw by done.
  set (st1 := set_all_parks (all_parks st) (init_state fs)) in Hw.
  assert (config st1 = cfg) as Hc1 by (by cbn).
  assert (exists st2, restore_last_province st1 = (st2, Ok tt) /\
            all_parks st2 = all_parks st /\ province_combo st2 = code /\
            is_dict (config st2)) as (st2 & Hr & Ha2 & Hp2 & Hd2).
  { unfold restore_last_province. unfold bind at 1 2, gets at 1, lift at 1.
    rewrite Hc1. cbn [cfg py_get]. rewrite lookup_insert_eq.
    unfold default. cbn [from_option id].
    destruct code as [c|]; cbn [code_value from_option] in *.
    - rewrite in_province_map_truthy, Hcode by done.
      unfold bind, modify, qt_slot.
      destruct (filter_parks_result (set_province_combo (Some c) st1))
        as (d' & shown' & _ & Hsel' & ->);
        [exact Hparks | change (Is_true (is_dict (config st1))); by rewrite Hc1 |].
      cbn [fst snd].
      change (select_parks (Some c) (all_parks st) = Ok shown') in Hsel'.
      rewrite Hsel in Hsel'. injection Hsel' as <-.
      rewrite Hsort. cbn [qt_fatal].
      eexists. split; [reflexivity|]. by cbn.
    - cbn [truthy]. exists st1. split_and!; [done..|]. by rewrite Hc1. }
  unfold bind in Hw. rewrite Hr in Hw.
  destruct (filter_parks_result st2) as (d2 & shown2 & _ & Hsel2 & Hf2);
    [by rewrite Ha2 | done |].
  rewrite Hf2 in Hw. subst w. cbn [fst snd province_combo all_parks park_table_model].
  rewrite Ha2, Hp2 in Hsel2. rewrite Hsel in Hsel2. injection Hsel2 as <-.
  by rewrite Ha2, Hp2.
Qed.

Lemma PotaLogbookApp_init_selection_witness :
  province_combo
    (fst (PotaLogbookApp_init
            (files (fst (filter_parks (sample_saved (Some "CN-AH"%string)))))))
    = Some "CN-AH"%string.
Proof.
  apply (PotaLogbookApp_init_selection (sample_saved (Some "CN-AH"%string))).
  - repeat constructor.
  - exact I.
  - reflexivity.
  - vm_compute. reflexivity.
  - vm_compute. exact I.
Defined.

Lemma load_parks_from_json_ok (st : PotaLogbookApp) :
  files st !! PARKS_DATA_FILE <> Some NotJson ->
  exists l, load_parks_from_json st = (set_all_parks l st, Ok tt).
Proof.
  intros Hfs. unfold load_parks_from_json, bind, gets, lift, modify, ret.
  destruct (files st !! PARKS_DATA_FILE) as [[|v]|]; [done| |].
  - destruct v; try (by exists (all_parks st); destruct st). by eexists.
  - exists (all_parks st). by destruct st.
Qed.

(** X5. A configuration file that holds JSON other than an object is not
    caught by [load_config]: with a catalog file that can be read, the
    start-up raises [AttributeError] in [restore_last_province]. *)
Theorem PotaLogbookApp_init_config_shape (fs : gmap string document) (v : value) :
  fs !! CONFIG_FILE = Some (Json v) -> is_dict v = false ->
  fs !! PARKS_DATA_FILE <> Some NotJson ->
  snd (PotaLogbookApp_init fs) = Raise AttributeError.
Proof.
  intros Hcfg Hv Hparks.
  assert (load_config fs = v) as Hload by (unfold load_config; by rewrite Hcfg).
  unfold PotaLogbookApp_init. unfold bind at 1.
  destruct (load_parks_from_json_ok (init_state fs) Hparks) as (l & ->).
  unfold bind at 1, restore_last_province. unfold bind at 1, gets at 1.
  unfold bind at 1, lift at 1.
  cbn [set_all_parks config init_state]. rewrite Hload.
  by destruct v.
Qed.

Lemma PotaLogbookApp_init_config_shape_witness :
  snd (PotaLogbookApp_init list_config_dir) = Raise AttributeError.
Proof.
  apply (PotaLogbookApp_init_config_shape list_config_dir (VList [VStr "CN-AH"]));
    [reflexivity | reflexivity | discriminate].
Defined.

(** X6. Without a configuration file, or with one that is not JSON, the
    start-up on a catalog file of park records that the proxy can sort
    succeeds: the selection is "all provinces", the whole catalog is shown,
    and the configuration file is written anew. *)
Theorem PotaLogbookApp_init_no_config (fs : gmap string document) (l : list value) :
  fs !! CONFIG_FILE = None \/ fs !! CONFIG_FILE = Some NotJson ->
  fs !! PARKS_DATA_FILE = Some (Json (VList l)) -> Forall is_park l ->
  sortable l ->
  snd (PotaLogbookApp_init fs) = Ok tt /\
  province_combo (fst (PotaLogbookApp_init fs)) = None /\
  all_parks (fst (PotaLogbookApp_init fs)) = l /\
  park_table_model (fst (PotaLogbookApp_init fs)) = l /\
  files (fst (PotaLogbookApp_init fs)) !! CONFIG_FILE =
    Some (Json (VDict {["last_province_code" := VNone]})).
Proof.
  intros Hcfg Hfs Hl Hsort%sort_source_rows_ok.
  assert (load_config fs = VDict ∅) as Hload.
  { unfold load_config. by destruct Hcfg as [-> | ->]. }
  cut (forall w, w = PotaLogbookApp_init fs ->
         snd w = Ok tt /\ province_combo (fst w) = None /\
         all_parks (fst w) = l /\ park_table_model (fst w) = l /\
         files (fst w) !! CONFIG_FILE =
           Some (Json (VDict {["last_province_code" := VNone]})));
    [by eauto|].
  intros w Hw. unfold PotaLogbookApp_init in Hw. unfold bind at 1 in Hw.
  rewrite (load_parks_from_json_array (init_state fs) l) in Hw by done.
  set (st1 := set_all_parks l (init_state fs)) in Hw.
  assert (restore_last_province st1 = (st1, Ok tt)) as Hr.
  { unfold restore_last_province, bind, gets, lift. cbn [st1 set_all_parks config init_state].
    by rewrite Hload. }
  unfold bind in Hw. rewrite Hr in Hw.
  destruct (filter_parks_result st1) as (d & shown & Ed & Hsel & Hf);
    [exact Hl | by cbn; rewrite Hload |].
  rewrite Hf in Hw. subst w. cbn [fst snd province_combo all_parks park_table_model files].
  cbn in Ed, Hsel. rewrite Hload in Ed. injection Ed as <-. injection Hsel as <-.
  split_and!; try done. by rewrite lookup_insert_eq.
Qed.

Lemma PotaLogbookApp_init_no_config_witness :
  park_table_model
    (fst (PotaLogbookApp_init
            (<[CONFIG_FILE := NotJson]> (files (sample_saved None)))))
    = sample_parks.
Proof.
  apply (PotaLogbookApp_init_no_config
           (<[CONFIG_FILE := NotJson]> (files (sample_saved None))) sample_parks).
  - right. reflexivity.
  - reflexivity.
  - repeat constructor.
  - vm_compute. exact I.
Defined.

End StartUp.

(* ===================================================================== *)
(** * The import handler *)
(* ===================================================================== *)

Section ImportHandler.

(** X7. An import whose file cannot be read ends in an exception and
    leaves the window as it was: catalog, files, table and messages.  On a
    catalog of park records the exception is the one of the read. *)
Theorem import_csv_action_unreadable (st : PotaLogbookApp) (e : exn) :
  (exists e', import_csv_action (Some (Raise e)) st = (st, Raise e')) /\
  (Forall is_park (all_parks st) ->
   import_csv_action (Some (Raise e)) st = (st, Raise e)).
Proof.
  cbn [import_csv_action]. unfold load_parks_from_csv, bind, gets, lift.
  split.
  - destruct (index_by_reference (all_parks st) ∅); eauto.
  - intros Hparks.
    by destruct (index_by_reference_parks (all_parks st) ∅ Hparks) as (? & -> & _).
Qed.

Lemma import_csv_action_unreadable_witness :
  import_csv_action (Some (Raise OSError)) (sample_saved None)
    = (sample_saved None, Raise OSError).
Proof.
  apply (proj2 (import_csv_action_unreadable (sample_saved None) OSError)).
  repeat constructor.
Defined.

Lemma omap_as_str_VStr (l : list string) : omap as_str (VStr <$> l) = l.
Proof. induction l as [|c l IH]; [done|]. cbn. by rewrite IH. Qed.

Lemma provinces_of_park_spec_record (old : list value) (r : row) :
  provinces_of_park (spec_record old r) = spec_provinces (row_desc r).
Proof.
  unfold provinces_of_park, spec_record.
  destruct (park_record_fields (row_reference r) (row_name r)
              (spec_provinces (row_desc r))
              (default (VBool false)
                 (last_with_reference (row_reference r) old ≫= field "activated"))
              (default VNone
                 (last_with_reference (row_reference r) old
                    ≫= field "activation_time")))
    as (_ & _ & -> & _).
  apply omap_as_str_VStr.
Qed.

Lemma filter_spec_import (c : string) (old : list value) (rows : list row) :
  filter (fun p => c ∈ provinces_of_park p) (spec_import old rows) =
  spec_record old <$>
    filter (fun r => row_complete r /\ c ∈ spec_provinces (row_desc r)) rows.
Proof.
  unfold spec_import. induction rows as [|r rows IH]; [done|].
  rewrite !(filter_cons _ r).
  destruct (decide (row_complete r)) as [Hr|Hr].
  - rewrite fmap_cons, filter_cons, provinces_of_park_spec_record.
    destruct (decide (c ∈ spec_provinces (row_desc r))) as [Hc|Hc].
    + rewrite decide_True by done. by rewrite fmap_cons, IH.
    + rewrite decide_False by tauto. done.
  - rewrite decide_False by tauto. done.
Qed.

(** X8. An import of a readable file, on a catalog of park records: the
    new catalog is on disk, and the table gets the records of the rows
    that have their three fields and, when a province is selected, list
    that province in [locationDesc].  When the proxy can sort these rows
    the call returns and the closing message carries the number of
    records; when it cannot, the process ends with [ValueError], the new
    catalog on disk. *)
Theorem import_csv_action_shows (st : PotaLogbookApp) (rows : list row) :
  Forall is_park (all_parks st) -> is_dict (config st) ->
  saved (fst (import_csv_action (Some (Ok rows)) st)) /\
  park_table_model (fst (import_csv_action (Some (Ok rows)) st)) =
    spec_record (all_parks st) <$>
      match province_combo st with
      | None => filter (fun r => row_complete r) rows
      | Some c => filter (fun r => row_complete r /\
                                   c ∈ spec_provinces (row_desc r)) rows
      end /\
  (sortable (park_table_model (fst (import_csv_action (Some (Ok rows)) st))) ->
   snd (import_csv_action (Some (Ok rows)) st) = Ok tt /\
   last (events (fst (import_csv_action (Some (Ok rows)) st))) =
     Some (InfoImported
             (length (all_parks (fst (import_csv_action (Some (Ok rows)) st)))))) /\
  (~ sortable (park_table_model (fst (import_csv_action (Some (Ok rows)) st))) ->
   snd (import_csv_action (Some (Ok rows)) st) = Raise (QtFatal ValueError)).
Proof.
  intros Hparks Hcfg.
  cut (forall w, w = import_csv_action (Some (Ok rows)) st ->
         saved (fst w) /\
         park_table_model (fst w) =
           spec_record (all_parks st) <$>
             match province_combo st with
             | None => filter (fun r => row_complete r) rows
             | Some c => filter (fun r => row_complete r /\
                                   c ∈ spec_provinces (row_desc r)) rows
             end /\
         (sortable (park_table_model (fst w)) ->
          snd w = Ok tt /\
          last (events (fst w)) = Some (InfoImported (length (all_parks (fst w))))) /\
         (~ sortable (park_table_model (fst w)) ->
          snd w = Raise (QtFatal ValueError)));
    [by eauto|].
  intros w Hw. cbn [import_csv_action] in Hw. unfold bind at 1 in Hw.
  rewrite load_parks_from_csv_spec in Hw by done.
  set (new_list := spec_import (all_parks st) rows) in Hw.
  unfold bind at 1, save_parks_to_json in Hw.
  unfold bind at 1, gets at 1, modify at 1 in Hw.
  set (st1 := write_json _ _ _) in Hw.
  assert (Forall is_park new_list) as Hnew by by apply spec_import_parks.
  destruct (filter_parks_result st1) as (d & shown & _ & Hsel & Hf);
    [exact Hnew | exact Hcfg |].
  assert (Forall is_park shown) as Hshown.
  { destruct (select_parks_parks (province_combo st1) _ Hnew)
      as (shown0 & Hsel0 & Hshown0 & _).
    assert (Ok shown0 = Ok shown) as [= ->]; [|done].
    rewrite <- Hsel0. exact Hsel. }
  assert (shown = spec_record (all_parks st) <$>
            match province_combo st with
            | None => filter (fun r => row_complete r) rows
            | Some c => filter (fun r => row_complete r /\
                                  c ∈ spec_provinces (row_desc r)) rows
            end) as Hrows.
  { cbn in Hsel. destruct (province_combo st) as [c|]; cbn [select_parks] in *.
    - rewrite parks_in_province_parks in Hsel by done. injection Hsel as <-.
      apply filter_spec_import.
    - by injection Hsel as <-. }
  destruct (sort_source_rows_parks shown Hshown) as [Hok Hbad].
  unfold bind, modify in Hw. rewrite Hf in Hw.
  destruct (sort_source_rows shown) as [[]|e] eqn:Es; subst w;
    cbn [fst snd emit events all_parks park_table_model].
  - split_and!.
    + unfold saved. cbn. rewrite lookup_insert_ne by done. apply lookup_insert_eq.
    + exact Hrows.
    + intros _. split; [done | by rewrite last_snoc].
    + intros Hno. destruct Hno. by apply sort_source_rows_ok.
  - split_and!.
    + unfold saved. cbn. rewrite lookup_insert_ne by done. apply lookup_insert_eq.
    + exact Hrows.
    + intros Hs. specialize (Hok Hs). congruence.
    + intros Hno. by rewrite <- (Hbad Hno).
Qed.

Lemma import_csv_action_shows_witness :
  park_table_model
    (fst (import_csv_action (Some (Ok sample_rows))
            (sample_saved (Some "CN-HE"%string)))) =
    [park_record "CN-0020" "New Park" ["CN-BJ"; "CN-HE"] (VBool false) VNone] /\
  snd (import_csv_action (Some (Ok sample_rows))
         (sample_saved (Some "CN-HE"%string))) = Ok tt.
Proof.
  destruct (import_csv_action_shows (sample_saved (Some "CN-HE"%string)) sample_rows)
    as (_ & Hshown & Hok & _); [repeat constructor | exact I |].
  split.
  - rewrite Hshown. vm_compute. reflexivity.
  - apply Hok. vm_compute. exact I.
Defined.

(** X9. Whatever the CSV holds, every province of every record an import
    produces is a key of the province table. *)
Theorem load_parks_from_csv_provinces (st : PotaLogbookApp) (rows : list row) :
  Forall is_park (all_parks st) ->
  Forall (fun p => Forall (fun c => c ∈ PROVINCE_MAP) (provinces_of_park p))
         (all_parks (fst (load_parks_from_csv (Ok rows) st))).
Proof.
  intros Hparks. rewrite load_parks_from_csv_spec by done.
  cbn [fst set_all_parks all_parks]. apply Forall_forall.
  intros p (r & _ & _ & ->)%spec_import_elem.
  rewrite provinces_of_park_spec_record. apply Forall_forall.
  intros c [Hc _]%list_elem_of_filter. by apply bool_decide_unpack in Hc.
Qed.

Lemma load_parks_from_csv_provinces_witness :
  Forall (fun p => Forall (fun c => c ∈ PROVINCE_MAP) (provinces_of_park p))
         (all_parks (fst (load_parks_from_csv (Ok sample_rows) (sample_app None)))).
Proof. apply load_parks_from_csv_provinces. repeat constructor. Defined.

End ImportHandler.

(* ===================================================================== *)
(** * Activation requests *)
(* ===================================================================== *)

Section ActivationRequests.

Lemma index_by_reference_missing (pre post : list value)
    (d : gmap string value) (acc : gmap string (gmap string value)) :
  Forall is_park pre -> d !! "reference" = None ->
  index_by_reference (pre ++ VDict d :: post) acc = Raise (KeyError "reference").
Proof.
  intros Hpre Hd. revert acc.
  induction Hpre as [|p ps Hp _ IH]; intros acc; cbn [app index_by_reference].
  - by rewrite Hd.
  - apply is_park_inv in Hp as (dp & r & ? & ? & ? & ? & -> & Hr & _).
    rewrite Hr. apply IH.
Qed.

Lemma find_park_missing (park_ref : string) (pre post : list value)
    (d : gmap string value) (k : nat) :
  Forall is_park pre -> d !! "reference" = None ->
  (forall p, p ∈ pre -> reference_of p <> Some park_ref) ->
  find_park park_ref (pre ++ VDict d :: post) k = Raise (KeyError "reference").
Proof.
  intros Hpre Hd. revert k.
  induction Hpre as [|p ps Hp _ IH]; intros k Hno; cbn [app find_park].
  - cbn. by rewrite Hd.
  - apply is_park_inv in Hp as (dp & r & ? & ? & ? & ? & -> & Hr & _).
    cbn [py_getitem]. rewrite Hr. cbn [rbind py_eq_str].
    destruct (String.eqb_spec r park_ref) as [->|Hne].
    + exfalso. apply (Hno (VDict dp)); [apply list_elem_of_here|].
      by apply reference_of_dict.
    + apply IH. intros p Hp. apply Hno. by apply list_elem_of_further.
Qed.

(** X10. A record without a [reference] key in the catalog, after park
    records only, stops every import: it raises [KeyError] before the file
    is looked at, and the window is left as it was.  An activation request
    for a reference that none of the parks before it has ends the same
    way. *)
Theorem missing_reference_blocks (st : PotaLogbookApp) (pre post : list value)
    (d : gmap string value) :
  all_parks st = pre ++ VDict d :: post ->
  Forall is_park pre -> d !! "reference" = None ->
  (forall reader,
     import_csv_action (Some reader) st = (st, Raise (KeyError "reference"))) /\
  (forall dlg park_ref,
     (forall p, p ∈ pre -> reference_of p <> Some park_ref) ->
     prompt_activation dlg park_ref st = (st, Raise (KeyError "reference"))).
Proof.
  intros Hall Hpre Hd. split.
  - intros reader. cbn [import_csv_action].
    unfold load_parks_from_csv, bind, gets, lift.
    by rewrite Hall, index_by_reference_missing.
  - intros dlg park_ref Hno. unfold prompt_activation, bind, gets, lift.
    by rewrite Hall, find_park_missing.
Qed.

Lemma missing_reference_blocks_witness :
  import_csv_action (Some (Ok sample_rows))
    (fst (load_parks_from_json (init_state nameless_dir))) =
  (fst (load_parks_from_json (init_state nameless_dir)),
   Raise (KeyError "reference")).
Proof.
  apply (proj1 (missing_reference_blocks
                  (fst (load_parks_from_json (init_state nameless_dir)))
                  [park_record "CN-0012" "Test Park" ["CN-AH"] (VBool false) VNone]
                  [] {["name" := VStr "Nameless"]}
                  eq_refl ltac:(repeat constructor) eq_refl)).
Defined.

(** X11. A cancelled date dialog changes nothing: on a catalog of park
    records that has the reference, the request returns and the window is
    as before, with no write and no message. *)
Theorem prompt_activation_cancelled (st : PotaLogbookApp) (park_ref : string) :
  Forall is_park (all_parks st) ->
  (exists p, p ∈ all_parks st /\ reference_of p = Some park_ref) ->
  prompt_activation None park_ref st = (st, Ok tt).
Proof.
  intros Hparks (p0 & Hin & Href).
  destruct (list_find (fun p => reference_of p = Some park_ref) (all_parks st))
    as [[i p]|] eqn:Hfind.
  - pose proof Hfind as (Hi & _ & _)%list_find_Some.
    assert (is_park p) as Hp by exact (Forall_lookup_1 _ _ _ _ Hparks Hi).
    unfold prompt_activation, bind, gets, lift.
    rewrite find_park_parks, Hfind by done. cbn [fmap option_fmap option_map prod_map].
    rewrite is_park_truthy by done. cbn [negb].
    apply is_park_inv in Hp as (d & ? & name & ? & ? & ? & -> & _ & Hn & _).
    cbn [py_getitem id snd]. by rewrite Hn.
  - apply list_find_None in Hfind. by eapply Forall_forall in Hfind.
Qed.

Lemma prompt_activation_cancelled_witness :
  prompt_activation None "CN-0100" (sample_app None) = (sample_app None, Ok tt).
Proof.
  apply prompt_activation_cancelled; [repeat constructor|].
  eexists. split; [apply list_elem_of_lookup; exists 1%nat; reflexivity |].
  vm_compute. reflexivity.
Defined.

Lemma list_find_insert (P : value -> Prop) `{!forall x, Decision (P x)}
    (l : list value) (i : nat) (x y : value) :
  list_find P l = Some (i, x) -> P y -> list_find P (<[i := y]> l) = Some (i, y).
Proof.
  intros (Hi & _ & Hfirst)%list_find_Some Hy. apply list_find_Some.
  split_and!; [|done|].
  - apply list_lookup_insert_eq. by eapply lookup_lt_Some.
  - intros j z Hj Hlt. rewrite list_lookup_insert_ne in Hj by lia.
    by eapply Hfirst.
Qed.

Lemma activated_on_twice (d1 d2 : string) (p : value) :
  activated_on d2 (activated_on d1 p) = activated_on d2 p.
Proof.
  destruct p as [| | | | |d]; try done. cbn [activated_on]. f_equal.
  apply map_eq. intros k. rewrite !lookup_insert. by repeat case_decide.
Qed.

(** X12. Activating a park again overwrites its date: on a catalog of
    park records, two confirmed requests for one reference leave the
    catalog that the second alone would leave. *)
Theorem prompt_activation_overwrites (st : PotaLogbookApp)
    (park_ref d1 d2 : string) :
  Forall is_park (all_parks st) ->
  all_parks (fst (prompt_activation (Some d2) park_ref
                    (fst (prompt_activation (Some d1) park_ref st)))) =
  all_parks (fst (prompt_activation (Some d2) park_ref st)).
Proof.
  intros Hparks.
  rewrite (prompt_activation_all_parks (fst _))
    by by apply prompt_activation_parks.
  rewrite !(prompt_activation_all_parks st) by done.
  destruct (list_find _ (all_parks st)) as [[i p]|] eqn:Hfind.
  - pose proof Hfind as (Hi & Hp & _)%list_find_Some.
    assert (is_park p) as Hpark by exact (Forall_lookup_1 _ _ _ _ Hparks Hi).
    rewrite (list_find_insert _ _ i p (activated_on d1 p)); [|done|].
    + by rewrite list_insert_insert_eq, activated_on_twice.
    + by rewrite (proj1 (proj2 (proj2 (activated_on_fields d1 p Hpark)))).
  - by rewrite Hfind.
Qed.

Lemma prompt_activation_overwrites_witness :
  all_parks (fst (prompt_activation (Some "2024-06-01"%string) "CN-0007"
                    (fst (prompt_activation (Some "2024-05-01"%string) "CN-0007"
                            (sample_app None))))) =
  all_parks (fst (prompt_activation (Some "2024-06-01"%string) "CN-0007"
                    (sample_app None))).
Proof. apply prompt_activation_overwrites. repeat constructor. Defined.

(** X13. An activation request, however it ends, keeps the parks of a
    catalog of park records in place: as many as before, each with its
    reference, name and provinces, and none that was activated is no
    longer so. *)
Theorem prompt_activation_keeps (st : PotaLogbookApp) (dlg : option string)
    (park_ref : string) :
  Forall is_park (all_parks st) ->
  length (all_parks (fst (prompt_activation dlg park_ref st)))
    = length (all_parks st) /\
  forall j q,
    all_parks st !! j = Some q ->
    exists q',
      all_parks (fst (prompt_activation dlg park_ref st)) !! j = Some q' /\
      reference_of q' = reference_of q /\
      field "name" q' = field "name" q /\
      field "provinces" q' = field "provinces" q /\
      (field "activated" q = Some (VBool true) ->
       field "activated" q' = Some (VBool true)).
Proof.
  intros Hparks. rewrite prompt_activation_all_parks by done.
  destruct dlg as [date|]; [|by eauto 10].
  destruct (list_find _ _) as [[i p]|] eqn:Hfind; [|by eauto 10].
  apply list_find_Some in Hfind as (Hi & _ & _).
  assert (is_park p) as Hp by exact (Forall_lookup_1 _ _ _ _ Hparks Hi).
  destruct (activated_on_fields date p Hp) as (Ha & _ & Hr & Hn & Hpr).
  split; [apply length_insert|]. intros j q Hj.
  destruct (decide (j = i)) as [->|Hne].
  - assert (q = p) as -> by congruence. exists (activated_on date p).
    split_and!; [|done..]. apply list_lookup_insert_eq. by eapply lookup_lt_Some.
  - exists q. by rewrite list_lookup_insert_ne.
Qed.

Lemma prompt_activation_keeps_witness :
  length (all_parks (fst (prompt_activation (Some "2024-05-01"%string) "CN-0012"
                            (sample_app None))))
    = length (all_parks (sample_app None)).
Proof.
  apply (prompt_activation_keeps (sample_app None)). repeat constructor.
Defined.

End ActivationRequests.

(* ===================================================================== *)
(** * Sessions *)
(* ===================================================================== *)

Section Sessions.

Lemma session_saved_witness :
  saved (session [Activate "CN-0012" (Some "2024-05-01"%string);
                  ImportCsv (Some (Raise OSError));
                  SelectProvince (Some "CN-AH"%string);
                  ImportCsv (Some (Ok sample_rows));
                  Activate "CN-9999" (Some "2024-05-02"%string)]
                 (sample_saved None)).
Proof. apply session_saved. reflexivity. Defined.

Lemma session_consistent_witness :
  Forall consistent
    (all_parks (session [Activate "CN-0012" (Some "2024-05-01"%string);
                         ImportCsv (Some (Ok sample_rows));
                         SelectProvince (Some "CN-AH"%string)]
                        (sample_app None))).
Proof.
  apply (session_consistent _ (sample_app None)).
  - repeat constructor.
  - repeat (constructor;
            [apply (proj2 (consistent_park_record _ _ _ _ _)); by split|]).
    constructor.
Defined.

Lemma filter_parks_raises (st : PotaLogbookApp) (d : gmap string value)
    (c : string) (e : exn) :
  config st = VDict d -> province_combo st = Some c ->
  parks_in_province c (all_parks st) = Raise e ->
  filter_parks st =
    (write_json CONFIG_FILE (VDict (<["last_province_code" := VStr c]> d))
       (set_config (VDict (<["last_province_code" := VStr c]> d)) st),
     Raise e).
Proof.
  intros Hc Hp He. unfold filter_parks, save_config.
  unfold bind, gets, lift, modify. rewrite Hc, Hp. cbn. by rewrite He.
Qed.

(** X15. On a catalog, on disk, whose first record that is not a park
    record is a dict without [provinces]: selecting a province of the
    table makes [filter_parks] raise [KeyError], yet the selection has
    been written to the configuration file.  A start-up on the files left
    behind restores that selection, and the [KeyError] is then raised in
    the slot that [setCurrentIndex] runs: it does not come out of
    [__init__], the process ends there. *)
Theorem filter_parks_failure_persists (st : PotaLogbookApp)
    (pre post : list value) (d : gmap string value) (c : string) :
  all_parks st = pre ++ VDict d :: post ->
  Forall is_park pre -> d !! "provinces" = None ->
  saved st -> is_dict (config st) ->
  province_combo st = Some c -> in_province_map c = true ->
  snd (filter_parks st) = Raise (KeyError "provinces") /\
  (exists cfg,
     files (fst (filter_parks st)) !! CONFIG_FILE = Some (Json (VDict cfg)) /\
     cfg !! "last_province_code" = Some (VStr c)) /\
  snd (PotaLogbookApp_init (files (fst (filter_parks st))))
    = Raise (QtFatal (KeyError "provinces")).
Proof.
  intros Hall Hpre Hd Hsaved Hcfg Hcombo Hc.
  destruct (config st) as [| | | | |d0] eqn:Ec; try done.
  assert (parks_in_province c (all_parks st) = Raise (KeyError "provinces")) as He.
  { rewrite Hall. by apply parks_in_province_missing. }
  rewrite (filter_parks_raises st d0 c _ Ec Hcombo He). cbn [fst snd files write_json set_config].
  set (cfg := <["last_province_code" := VStr c]> d0).
  set (fs := <[CONFIG_FILE := Json (VDict cfg)]> (files st)).
  split_and!; [done| |].
  - exists cfg. split; [apply lookup_insert_eq|]. apply lookup_insert_eq.
  - assert (fs !! PARKS_DATA_FILE = Some (Json (VList (all_parks st)))) as Hfs.
    { unfold fs. by rewrite lookup_insert_ne. }
    assert (load_config fs = VDict cfg) as Hload.
    { unfold load_config, fs. by rewrite lookup_insert_eq. }
    unfold PotaLogbookApp_init. unfold bind at 1.
    rewrite (load_parks_from_json_array (init_state fs) (all_parks st)) by done.
    set (st1 := set_all_parks (all_parks st) (init_state fs)).
    assert (restore_last_province st1 =
              (fst (filter_parks (set_province_combo (Some c) st1)),
               Raise (QtFatal (KeyError "provinces")))) as Hr.
    { unfold restore_last_province. unfold bind at 1 2, gets at 1, lift at 1.
      cbn [st1 set_all_parks config init_state]. rewrite Hload.
      assert (cfg !! "last_province_code" = Some (VStr c)) as Hl
        by apply lookup_insert_eq.
      cbn [py_get]. rewrite Hl. unfold default. cbn [from_option id].
      rewrite in_province_map_truthy, Hc by done.
      unfold bind, modify, qt_slot.
      by rewrite (filter_parks_raises _ cfg c (KeyError "provinces")). }
    unfold bind. by rewrite Hr.
Qed.

Lemma filter_parks_failure_persists_witness :
  snd (PotaLogbookApp_init
         (files (fst (filter_parks
                        (set_province_combo (Some "CN-AH"%string)
                           (fst (load_parks_from_json (init_state shapeless_dir))))))))
    = Raise (QtFatal (KeyError "provinces")).
Proof.
  apply (filter_parks_failure_persists
           (set_province_combo (Some "CN-AH"%string)
              (fst (load_parks_from_json (init_state shapeless_dir))))
           [park_record "CN-0012" "Test Park" ["CN-AH"] (VBool false) VNone]
           [] {["reference" := VStr "CN-0100"]} "CN-AH").
  - reflexivity.
  - repeat constructor.
  - reflexivity.
  - reflexivity.
  - exact I.
  - reflexivity.
  - vm_compute. reflexivity.
Defined.

End Sessions.
